(** * ariadna/osm: hierarchy reconstruction and the indexing join

    A shallow embedding of [osm/osm.go].  The importer reads an accumulator
    filled by the parser, assembles polygons out of relations and ways,
    nests settlements in the configured country and districts in
    settlements, writes one debug file per country, and finally starts
    three push tasks in an error group.

    Coordinates are Go [float64] values.  No property below depends on
    floating-point arithmetic, so the coordinate type, its zero value and
    its [%v] rendering are kept abstract ([Float64]); the point-in-polygon
    test of the geometry library is abstract as well ([PolygonContains]).
    The calls to the logger have no part in any property and are left
    out. *)

From stdpp Require Import gmap strings list fin_maps pretty.

Set Default Proof Using "Type*".

(** ** Coordinates *)

Class Float64 := {
  float64 : Type;
  (** the zero value of the type, [0.0] *)
  float64_zero : float64;
  (** what [fmt.Sprintf] prints for a [float64] under the verb [%v] *)
  fmt_v : float64 → string;
}.

(** ** github.com/kellydunn/golang-geo: the part the importer calls *)

Module geo.
Section geo.
Context `{Float64}.

Record Point := NewPoint { Lat : float64; Lng : float64 }.

Record Polygon := NewPolygon { Points : list Point }.

End geo.
Arguments Point {_}.
Arguments Polygon {_}.
End geo.

(** [Polygon.Contains] of the geometry library. *)
Class PolygonContains `{Float64} :=
  Contains : geo.Polygon → geo.Point → bool.

(** ** github.com/missinglink/gosmparse: the records the parser hands over *)

Module Node.
Section Node.
Context `{Float64}.
Record t := mk {
  ID : Z;
  Lat : float64;
  Lon : float64;
  Tags : gmap string string;
}.
(** what a map read returns for an absent key *)
Definition zero : t := mk 0 float64_zero float64_zero ∅.
End Node.
Arguments t {_}.
End Node.

Module Way.
Record t := mk {
  ID : Z;
  Tags : gmap string string;
  NodeIDs : list Z;
}.
Definition zero : t := mk 0 ∅ [].
End Way.

Module RelationMember.
Inductive MemberType := NodeType | WayType | RelationType.
Record t := mk {
  ID : Z;
  Type_ : MemberType;
  Role : string;
}.
End RelationMember.

Module Relation.
Record t := mk {
  ID : Z;
  Tags : gmap string string;
  Members : list RelationMember.t;
}.
End Relation.

(** [m[k]] on a Go [map[string]string]: the empty string when [k] is absent. *)
Definition tag (m : gmap string string) (k : string) : string :=
  default EmptyString (m !! k).

(** ** The accumulator and the configuration *)

Module handler.
Section handler.
Context `{Float64}.

(** Modelled from the spec: the declaration of [handler.Handler] is not
    part of [osm.go].  The importer indexes [Nodes] and [FullWays] by
    identifier with the map read forms [v, ok := m[k]] and [v := m[k]]
    and takes fields of the value read, and it ranges over [Countries],
    [Areas] (relations) and [Districts] (ways).  The maps hold the records
    themselves, the way the parser library hands them to its reader, so
    that a plain read of an absent key gives the zero record.  The three
    groups are ordered sequences, iterated in parsing order. *)
Record Handler := {
  Nodes : gmap Z Node.t;
  FullWays : gmap Z Way.t;
  Countries : list Relation.t;
  Areas : list Relation.t;
  Districts : list Way.t;
}.
End handler.
Arguments Handler {_}.
End handler.

Module config.
(** Modelled from the spec: of [config.Ariadna] only the field read by
    the hierarchy build, the name of the country to import. *)
Record Ariadna := { ImportCountry : string }.
End config.

(** ** Polygon assembly *)

Section assembly.
Context `{Float64}.
Import handler.

(** The body of the [for _, nodeID := range way.NodeIDs] loop, shared by
    [relationToPolygon] and [wayToPolygon]: a plain map read, then one
    [append]. *)
Definition append_node (h : Handler) (points : list geo.Point) (nodeID : Z)
  : list geo.Point :=
  let node := default Node.zero (Nodes h !! nodeID) in
  points ++ [geo.NewPoint (Node.Lat node) (Node.Lon node)].

Definition relationToPolygon (h : Handler) (area : Relation.t) : geo.Polygon :=
  let points :=
    fold_left
      (fun points member =>
         match Nodes h !! RelationMember.ID member with
         | Some node =>
             points ++ [geo.NewPoint (Node.Lat node) (Node.Lon node)]
         | None =>
             let way := default Way.zero (FullWays h !! RelationMember.ID member) in
             fold_left (append_node h) (Way.NodeIDs way) points
         end)
      (Relation.Members area) [] in
  geo.NewPolygon points.

Definition wayToPolygon (h : Handler) (way : Way.t) : geo.Polygon :=
  let points := fold_left (append_node h) (Way.NodeIDs way) [] in
  geo.NewPolygon points.

(** *** The assembly as the specification words it *)

(** The point a node reference stands for; the zero point when the
    reference is unknown. *)
Definition node_point (h : Handler) (nodeID : Z) : geo.Point :=
  match Nodes h !! nodeID with
  | Some node => geo.NewPoint (Node.Lat node) (Node.Lon node)
  | None => geo.NewPoint float64_zero float64_zero
  end.

(** The point sequence one relation member resolves to: a known point
    gives that point, otherwise a known path gives its points in path
    order, otherwise nothing. *)
Definition member_points (h : Handler) (member : RelationMember.t)
  : list geo.Point :=
  match Nodes h !! RelationMember.ID member with
  | Some node => [geo.NewPoint (Node.Lat node) (Node.Lon node)]
  | None =>
      match FullWays h !! RelationMember.ID member with
      | Some way => node_point h <$> Way.NodeIDs way
      | None => []
      end
  end.

(** A path assembly that leaves unresolved references out. *)
Definition wayToPolygon_skipping (h : Handler) (way : Way.t) : geo.Polygon :=
  geo.NewPolygon
    (omap (fun nodeID =>
             (fun node => geo.NewPoint (Node.Lat node) (Node.Lon node))
               <$> Nodes h !! nodeID)
          (Way.NodeIDs way)).

End assembly.

(** ** Faults and fallible loops *)

(** The two ways the hierarchy build ends the process: a runtime panic on
    a slice index, and [log.Fatal] after a failed [os.Create]. *)
Inductive fault :=
| index_out_of_range (index len : nat)
| log_Fatal (path : string).

Inductive result (A : Type) :=
| Ok (a : A)
| Fault (f : fault).
Arguments Ok {A} a.
Arguments Fault {A} f.

#[global] Instance result_bind : MBind result :=
  fun A B k m => match m with Ok a => k a | Fault f => Fault f end.

(** [s[i]] on a slice. *)
Definition index {A} (s : list A) (i : nat) : result A :=
  match s !! i with
  | Some x => Ok x
  | None => Fault (index_out_of_range i (length s))
  end.

(** [for _, x := range s { acc = body(acc, x) }], left as soon as the body
    faults. *)
Fixpoint range {A B} (body : B → A → result B) (s : list A) (acc : B) : result B :=
  match s with
  | [] => Ok acc
  | x :: s' =>
      match body acc x with
      | Ok acc' => range body s' acc'
      | Fault f => Fault f
      end
  end.

(** ** The hierarchy *)

Module district.
Section district.
Context `{Float64}.
Record t := mk { name : string; geom : geo.Polygon }.
End district.
Arguments t {_}.
End district.

Module city.
Section city.
Context `{Float64}.
Record t := mk {
  name : string;
  placeType : string;
  geom : geo.Polygon;
  districts : list district.t;
}.
End city.
Arguments t {_}.
End city.

Module country.
Section country.
Context `{Float64}.
Record t := mk {
  name : string;
  towns : list city.t;
  geom : geo.Polygon;
}.
End country.
Arguments t {_}.
End country.

(** ** golang.org/x/sync/errgroup *)

Module errgroup.

Definition error := string.

(** The group as its documentation describes it: a count of the calls
    started with [Go] that have not returned yet, and a slot that keeps
    the first non-nil error returned. *)
Record Group := mk { running : nat; err : option error }.

Definition zero : Group := mk 0 None.

(** [g.Go(f)]: one more call under way. *)
Definition Go (g : Group) : Group := mk (S (running g)) (err g).

(** A call started with [Go] returns [r]. *)
Definition returns (g : Group) (r : option error) : Group :=
  mk (pred (running g))
     (match err g with Some e => Some e | None => r end).

(** [g.Wait()]: blocked ([None]) while a call is under way, then the
    content of the slot. *)
Definition Wait (g : Group) : option (option error) :=
  if decide (running g = 0) then Some (err g) else None.

End errgroup.

(** ** The importer *)

(** One debug file: the path given to [os.Create] and the payloads of the
    [Write] calls, in order.  Write errors are not looked at by the code
    and every write is taken to succeed. *)
Record File := { path : string; writes : list string }.

(** Whether [os.Create] succeeds on a path. *)
Class Os := os_Create_ok : string → bool.

Section importer.
Context `{Float64} `{!PolygonContains} `{!Os}.
Import handler.

(** Of the fields of [Importer]: the accumulator, the configuration, the
    error group and the hierarchy.  The parser, the index client and the
    logger are outside this development. *)
Record Importer := {
  handler : Handler;
  config : config.Ariadna;
  eg : errgroup.Group;
  countries : list country.t;
}.

Definition newline : string := String (Ascii.ascii_of_nat 10) EmptyString.

(** [fmt.Sprintf] with the format of the debug export: the two values
    under [%v], a comma between them, a line feed after them. *)
Definition Sprintf_debug (a b : float64) : string :=
  fmt_v a +:+ "," +:+ fmt_v b +:+ newline.

(** Lines 135-141: the loop over the districts, for one settlement. *)
Definition district_body (h : Handler) (areaPolygon : geo.Polygon)
    (city : city.t) (dist : Way.t) : result city.t :=
  let districtPolygon := wayToPolygon h dist in
  point ← index (geo.Points districtPolygon) 1;
  if Contains areaPolygon point then
    let d := district.mk (tag (Way.Tags dist) "name") districtPolygon in
    Ok (city.mk (city.name city) (city.placeType city) (city.geom city)
                (city.districts city ++ [d]))
  else Ok city.

(** Lines 128-146: the loop over the settlements, for one country. *)
Definition area_body (h : Handler) (countryPolygon : geo.Polygon)
    (c : country.t) (area : Relation.t) : result country.t :=
  let areaPolygon := relationToPolygon h area in
  let city :=
    city.mk (tag (Relation.Tags area) "name")
            (tag (Relation.Tags area) "place")
            areaPolygon [] in
  city ← range (district_body h areaPolygon) (Districts h) city;
  point ← index (geo.Points areaPolygon) 1;
  if Contains countryPolygon point then
    Ok (country.mk (country.name c) (country.towns c ++ [city]) (country.geom c))
  else Ok c.

(** Lines 110-149: one turn of the loop over the country relations.  The
    importer and the debug files written so far go in and come out; a
    fault ends the process with the files already on disk. *)
Definition country_body (i : Importer) (fs : list File) (cn : Relation.t)
  : option fault * Importer * list File :=
  if negb (String.eqb (tag (Relation.Tags cn) "name")
                      (config.ImportCountry (config i)))
  then (None, i, fs)
  else
    let countryPolygon := relationToPolygon (handler i) cn in
    if negb (os_Create_ok (tag (Relation.Tags cn) "name"))
    then (Some (log_Fatal (tag (Relation.Tags cn) "name")), i, fs)
    else
      let f :=
        {| path := tag (Relation.Tags cn) "name";
           writes := (fun point => Sprintf_debug (geo.Lng point) (geo.Lat point))
                       <$> geo.Points countryPolygon |} in
      let c := country.mk (tag (Relation.Tags cn) "name") [] countryPolygon in
      match range (area_body (handler i) countryPolygon) (Areas (handler i)) c with
      | Fault e => (Some e, i, fs ++ [f])
      | Ok c =>
          (None,
           {| handler := handler i; config := config i; eg := eg i;
              countries := countries i ++ [c] |},
           fs ++ [f])
      end.

Fixpoint countries_loop (cns : list Relation.t) (i : Importer) (fs : list File)
  : option fault * Importer * list File :=
  match cns with
  | [] => (None, i, fs)
  | cn :: cns' =>
      match country_body i fs cn with
      | (None, i', fs') => countries_loop cns' i' fs'
      | (Some e, i', fs') => (Some e, i', fs')
      end
  end.

Definition areasToPolygons (i : Importer) (fs : list File)
  : option fault * Importer * list File :=
  countries_loop (Countries (handler i)) i fs.

(** How a call of [Start] ends: it returns an error or nil, or the
    process dies in the hierarchy build. *)
Inductive exit :=
| Returned (e : option errgroup.error)
| Died (f : fault).

(** [Start].  What [parse] and [updateIndices] return is decided outside
    this file and is given.  The three tasks are only started here. *)
Definition Start (parse updateIndices : option errgroup.error)
    (i : Importer) (fs : list File) : exit * Importer * list File :=
  match parse with
  | Some e => (Returned (Some e), i, fs)
  | None =>
      match updateIndices with
      | Some e => (Returned (Some e), i, fs)
      | None =>
          match areasToPolygons i fs with
          | (Some f, i', fs') => (Died f, i', fs')
          | (None, i', fs') =>
              (Returned None,
               {| handler := handler i'; config := config i';
                  eg := errgroup.Go (errgroup.Go (errgroup.Go (eg i')));
                  countries := countries i' |},
               fs')
          end
      end
  end.

(** One of the started tasks returns [r]. *)
Definition task_returns (i : Importer) (r : option errgroup.error) : Importer :=
  {| handler := handler i; config := config i;
     eg := errgroup.returns (eg i) r; countries := countries i |}.

(** [WaitStop]: blocked ([None]) as long as [Wait] is, then returns, and
    has no result. *)
Definition WaitStop (i : Importer) : option unit :=
  match errgroup.Wait (eg i) with
  | Some _ => Some tt
  | None => None
  end.

End importer.
Arguments Importer {_}.

(** ** uniqString *)

(** Lines 98-101: the set of the strings of the list, as the keys of a
    map. *)
Definition uniqueSet (list : list string) : gmap string bool :=
  fold_left (fun uniqueSet x => <[x := true]> uniqueSet) list ∅.

(** [for x := range m] over a map: the loop meets every key once, in an
    order the runtime chooses anew for each loop.  [order] is one of the
    orders the loop can take. *)
Definition range_keys (m : gmap string bool) (order : list string) : Prop :=
  order ≡ₚ (map_to_list m).*1.

(** Lines 97-107.  The function has one result for each order the second
    loop can take: [uniqString list result] says that [result] is one of
    them. *)
Definition uniqString (list result : list string) : Prop :=
  ∃ order,
    range_keys (uniqueSet list) order
    ∧ result = fold_left (fun result x => result ++ [x]) order [].

(** ** The loops in closed form

    What a completed run of the loops leaves behind, written as filters
    and maps over the groups of the accumulator.  The lemmas of the
    second part relate the loops to these. *)

Section closed_form.
Context `{Float64} `{!PolygonContains}.
Import handler.

(** [child.Points()[1]], when the ring has a second point. *)
Definition second_point (child : geo.Polygon) : option geo.Point :=
  geo.Points child !! 1.

(** The test of lines 137 and 142: the second point of the child's ring
    lies inside the parent's polygon. *)
Definition inside (parent child : geo.Polygon) : bool :=
  match second_point child with
  | Some point => Contains parent point
  | None => false
  end.

Definition district_of (h : Handler) (dist : Way.t) : district.t :=
  district.mk (tag (Way.Tags dist) "name") (wayToPolygon h dist).

(** The districts the loop of lines 135-141 attaches under a polygon. *)
Definition districts_inside (h : Handler) (areaPolygon : geo.Polygon)
  : list district.t :=
  district_of h
    <$> filter (fun dist => inside areaPolygon (wayToPolygon h dist) = true)
               (Districts h).

Definition city_of (h : Handler) (area : Relation.t) : city.t :=
  city.mk (tag (Relation.Tags area) "name")
          (tag (Relation.Tags area) "place")
          (relationToPolygon h area)
          (districts_inside h (relationToPolygon h area)).

(** The settlements the loop of lines 128-146 attaches under a polygon. *)
Definition towns_inside (h : Handler) (countryPolygon : geo.Polygon)
  : list city.t :=
  city_of h
    <$> filter (fun area => inside countryPolygon (relationToPolygon h area) = true)
               (Areas h).

Definition country_of (h : Handler) (cn : Relation.t) : country.t :=
  country.mk (tag (Relation.Tags cn) "name")
             (towns_inside h (relationToPolygon h cn))
             (relationToPolygon h cn).

(** The relations the guard of line 111 lets through. *)
Definition selected (cfg : config.Ariadna) (cns : list Relation.t)
  : list Relation.t :=
  filter (fun cn => tag (Relation.Tags cn) "name" = config.ImportCountry cfg) cns.

(** The debug file of a country: its name as the path, one payload per
    point of its ring, longitude first. *)
Definition debug_file (c : country.t) : File :=
  {| path := country.name c;
     writes := (fun point => fmt_v (geo.Lng point) +:+ "," +:+
                             fmt_v (geo.Lat point) +:+ newline)
                 <$> geo.Points (country.geom c) |}.

(** Every child ring the loops index has a second point. *)
Definition rings_indexable (h : Handler) : Prop :=
  Forall (fun area => is_Some (second_point (relationToPolygon h area))) (Areas h)
  ∧ Forall (fun dist => is_Some (second_point (wayToPolygon h dist))) (Districts h).

(** What the loops of one country index: the second point of every
    settlement ring and, once there is a settlement, the second point of
    every district ring. *)
Definition build_safe (h : Handler) : Prop :=
  Forall (fun area => is_Some (second_point (relationToPolygon h area))) (Areas h)
  ∧ (Areas h = []
     ∨ Forall (fun dist => is_Some (second_point (wayToPolygon h dist)))
              (Districts h)).


End closed_form.

(** ** Integer-valued coordinates

    An instance of the abstract parts, for the concrete runs below:
    coordinates that are whole numbers of degrees, and the even-odd test
    for the point-in-polygon predicate (a ray from the point towards
    larger latitudes; a ring of fewer than three points contains
    nothing). *)

#[global] Instance Z_float64 : Float64 :=
  {| float64 := Z; float64_zero := 0%Z; fmt_v := pretty |}.

(** The ray from [p] meets the edge from [a] to [b]. *)
Definition ray_meets (p a b : geo.Point) : bool :=
  let d := (geo.Lng b - geo.Lng a)%Z in
  let l := ((geo.Lat p - geo.Lat a) * d)%Z in
  let r := ((geo.Lat b - geo.Lat a) * (geo.Lng p - geo.Lng a))%Z in
  xorb (geo.Lng p <? geo.Lng a)%Z (geo.Lng p <? geo.Lng b)%Z
  && (if (0 <? d)%Z then (l <? r)%Z else (r <? l)%Z).

(** The edges of a ring, the closing edge included. *)
Definition ring_edges (ps : list geo.Point) : list (geo.Point * geo.Point) :=
  zip ps (rotate 1 ps).

#[global] Instance even_odd : PolygonContains :=
  fun poly p =>
    let ps := geo.Points poly in
    if decide (length ps < 3) then false
    else Nat.odd (length (filter (fun e => ray_meets p e.1 e.2 = true) (ring_edges ps))).

#[global] Instance every_path : Os := fun _ => true.

Definition pt (lat lng : Z) : Node.t := Node.mk 0 lat lng ∅.

Definition named (n : string) : gmap string string := {[ "name" := n ]}.

Definition ref (id : Z) : RelationMember.t :=
  RelationMember.mk id RelationMember.WayType "outer".

(** Points 1-4: the corners of a square of side 10; points 5-8: the
    corners of a square inside it; points 9 and 10: inside the inner
    square; point 11: far outside. *)
Definition sample_nodes : gmap Z Node.t :=
  list_to_map
    [ (1, pt 0 0); (2, pt 0 10); (3, pt 10 10); (4, pt 10 0);
      (5, pt 1 1); (6, pt 1 9); (7, pt 9 9); (8, pt 9 1);
      (9, pt 4 4); (10, pt 5 5); (11, pt 50 50) ]%Z.

Definition sample_ways : gmap Z Way.t :=
  list_to_map
    [ (100, Way.mk 100 ∅ [1; 2; 3; 4]);
      (101, Way.mk 101 ∅ [5; 6; 7; 8]);
      (102, Way.mk 102 ∅ [2; 3]) ]%Z.

Definition sample_handler : handler.Handler :=
  {| handler.Nodes := sample_nodes; handler.FullWays := sample_ways;
     handler.Countries := []; handler.Areas := []; handler.Districts := [] |}.

(** A path whose second reference, 77, is not a known point. *)
Definition broken_way : Way.t := Way.mk 103 (named "Vostok") [9; 77; 10]%Z.

(** Two country relations ([KG] with the outer square as its ring), two
    settlements on the inner square, one settlement far away, one district
    inside the inner square and one far away. *)
Definition KG : Relation.t := Relation.mk 1 (named "KG") [ref 100].
Definition UZ : Relation.t := Relation.mk 2 (named "UZ") [ref 100].
Definition Bishkek : Relation.t :=
  Relation.mk 10 (<["place" := "city"]> (named "Bishkek")) [ref 101].
Definition Osh : Relation.t :=
  Relation.mk 11 (<["place" := "town"]> (named "Osh")) [ref 5; ref 6; ref 7; ref 8].
Definition Far : Relation.t :=
  Relation.mk 12 (named "Far") [ref 11; ref 11; ref 11].
Definition Vostok : Way.t := Way.mk 200 (named "Vostok") [9; 10]%Z.
Definition Remote : Way.t := Way.mk 201 (named "Remote") [11; 11]%Z.

Definition sample_importer : Importer :=
  {| handler :=
       {| handler.Nodes := sample_nodes; handler.FullWays := sample_ways;
          handler.Countries := [KG; UZ];
          handler.Areas := [Bishkek; Osh; Far];
          handler.Districts := [Vostok; Remote] |};
     config := {| config.ImportCountry := "KG" |};
     eg := errgroup.zero;
     countries := [] |}.

(** A second relation that carries the configured name. *)
Definition KG_again : Relation.t := Relation.mk 3 (named "KG") [ref 101].

Definition twin_importer : Importer :=
  {| handler :=
       {| handler.Nodes := sample_nodes; handler.FullWays := sample_ways;
          handler.Countries := [KG; KG_again];
          handler.Areas := []; handler.Districts := [] |};
     config := {| config.ImportCountry := "KG" |};
     eg := errgroup.zero;
     countries := [] |}.

(** A settlement relation without members: its ring is empty. *)
Definition Empty : Relation.t := Relation.mk 13 (named "Empty") [].

Definition hollow_importer : Importer :=
  {| handler :=
       {| handler.Nodes := sample_nodes; handler.FullWays := sample_ways;
          handler.Countries := [KG];
          handler.Areas := [Empty]; handler.Districts := [] |};
     config := {| config.ImportCountry := "KG" |};
     eg := errgroup.zero;
     countries := [] |}.

(** A district path of a single point, next to one good settlement. *)
Definition Lonely : Way.t := Way.mk 202 (named "Lonely") [9]%Z.

Definition lonely_importer : Importer :=
  {| handler :=
       {| handler.Nodes := sample_nodes; handler.FullWays := sample_ways;
          handler.Countries := [KG];
          handler.Areas := [Bishkek]; handler.Districts := [Lonely] |};
     config := {| config.ImportCountry := "KG" |};
     eg := errgroup.zero;
     countries := [] |}.


(** The first error among three task results, in the order the tasks
    return. *)
Definition first_error (r1 r2 r3 : option errgroup.error)
  : option errgroup.error :=
  match r1 with
  | Some e => Some e
  | None => match r2 with Some e => Some e | None => r3 end
  end.

(** The sample accumulator with two settlements in the other order. *)
Definition swapped_importer : Importer :=
  {| handler :=
       {| handler.Nodes := sample_nodes; handler.FullWays := sample_ways;
          handler.Countries := [KG; UZ];
          handler.Areas := [Osh; Bishkek; Far];
          handler.Districts := [Vostok; Remote] |};
     config := {| config.ImportCountry := "KG" |};
     eg := errgroup.zero;
     countries := [] |}.

(** What the build leaves on the sample: the importer and the files. *)
Definition sample_built : Importer := (areasToPolygons sample_importer []).1.2.
Definition sample_files : list File := (areasToPolygons sample_importer []).2.

(** The importer after [Start] on the sample. *)
Definition sample_started : Importer := (Start None None sample_importer []).1.2.

(** A list with a repeated string, and one of the results of
    [uniqString] on it. *)
Definition sample_names : list string := ["KG"; "UZ"; "KG"].
Definition sample_uniq : list string := ["UZ"; "KG"].

(** The sample with a file system on which nothing can be created. *)
Definition no_path : Os := fun _ => false.

(** The sample with no relation of the configured name. *)
Definition foreign_importer : Importer :=
  {| handler := handler hollow_importer;
     config := {| config.ImportCountry := "TJ" |};
     eg := errgroup.zero;
     countries := [] |}.

(** A relation whose only member names the path 100, and one with the
    same member identifiers as [Osh] under other types and roles. *)
Definition ring_of_100 : Relation.t := Relation.mk 20 ∅ [ref 100].
Definition Osh_retyped : Relation.t :=
  Relation.mk 21 (named "Osh, retyped")
    [ RelationMember.mk 5 RelationMember.NodeType "";
      RelationMember.mk 6 RelationMember.RelationType "inner";
      RelationMember.mk 7 RelationMember.NodeType "";
      RelationMember.mk 8 RelationMember.WayType "outer" ]%Z.

(** A relation none of whose members is known. *)
Definition Unknown : Relation.t := Relation.mk 22 (named "Unknown") [ref 500; ref 501].

Definition unknown_importer : Importer :=
  {| handler :=
       {| handler.Nodes := sample_nodes; handler.FullWays := sample_ways;
          handler.Countries := [UZ; KG; KG_again];
          handler.Areas := [Bishkek; Unknown]; handler.Districts := [Vostok] |};
     config := {| config.ImportCountry := "KG" |};
     eg := errgroup.zero;
     countries := [] |}.

(** What the build leaves on the sample when it is run a second time. *)
Definition sample_rebuilt : Importer := (areasToPolygons sample_built sample_files).1.2.
Definition sample_refiled : list File := (areasToPolygons sample_built sample_files).2.

(** What [Start] leaves on the accumulator with the empty settlement
    ring. *)
Definition hollow_files : list File := (Start None None hollow_importer []).2.

(** * Polygon assembly: what the loops compute *)

Section assembly_facts.
Context `{Float64}.
Import handler.

Lemma append_node_point (h : Handler) (points : list geo.Point) (nodeID : Z) :
  append_node h points nodeID = points ++ [node_point h nodeID].
Proof.
  unfold append_node, node_point.
  destruct (Nodes h !! nodeID) as [node|]; reflexivity.
Qed.

Lemma way_loop_points (h : Handler) (ids : list Z) (points : list geo.Point) :
  fold_left (append_node h) ids points = points ++ (node_point h <$> ids).
Proof.
  revert points.
  induction ids as [|id ids IH]; intros points; simpl.
  - by rewrite app_nil_r.
  - rewrite IH, append_node_point, <- app_assoc. reflexivity.
Qed.

Lemma member_step_points (h : Handler) (member : RelationMember.t)
    (points : list geo.Point) :
  match Nodes h !! RelationMember.ID member with
  | Some node => points ++ [geo.NewPoint (Node.Lat node) (Node.Lon node)]
  | None =>
      fold_left (append_node h)
        (Way.NodeIDs (default Way.zero (FullWays h !! RelationMember.ID member)))
        points
  end = points ++ member_points h member.
Proof.
  unfold member_points.
  destruct (Nodes h !! RelationMember.ID member) as [node|]; [reflexivity|].
  rewrite way_loop_points.
  destruct (FullWays h !! RelationMember.ID member) as [way|]; reflexivity.
Qed.

Lemma relation_loop_points (h : Handler) (members : list RelationMember.t)
    (points : list geo.Point) :
  fold_left
    (fun points member =>
       match Nodes h !! RelationMember.ID member with
       | Some node => points ++ [geo.NewPoint (Node.Lat node) (Node.Lon node)]
       | None =>
           let way := default Way.zero (FullWays h !! RelationMember.ID member) in
           fold_left (append_node h) (Way.NodeIDs way) points
       end)
    members points
  = points ++ concat (member_points h <$> members).
Proof.
  revert points.
  induction members as [|m members IH]; intros points; simpl.
  - by rewrite app_nil_r.
  - rewrite IH. cbv zeta. rewrite member_step_points, <- app_assoc. reflexivity.
Qed.

(** C5. The ring assembled by [relationToPolygon] is the concatenation, in
    member order, of what each member resolves to ([member_points]): the
    single point of a member that names a known point, else the points of
    the path it names in path order, else nothing.  Nothing is reordered,
    closed or removed. *)
Theorem relationToPolygon_concat (h : Handler) (area : Relation.t) :
  geo.Points (relationToPolygon h area)
  = concat (member_points h <$> Relation.Members area).
Proof.
  unfold relationToPolygon. cbn [geo.Points].
  apply (relation_loop_points h (Relation.Members area) []).
Qed.

(** A point member followed by a path member of two known points gives the
    ring of the three points, in that order. *)
Lemma relationToPolygon_point_then_path (h : Handler) (area : Relation.t)
    (p q : RelationMember.t) (P A B : Node.t) (a b : Z) (way : Way.t) :
  Relation.Members area = [p; q] →
  Nodes h !! RelationMember.ID p = Some P →
  Nodes h !! RelationMember.ID q = None →
  FullWays h !! RelationMember.ID q = Some way →
  Way.NodeIDs way = [a; b] →
  Nodes h !! a = Some A →
  Nodes h !! b = Some B →
  geo.Points (relationToPolygon h area)
  = [ geo.NewPoint (Node.Lat P) (Node.Lon P);
      geo.NewPoint (Node.Lat A) (Node.Lon A);
      geo.NewPoint (Node.Lat B) (Node.Lon B) ].
Proof.
  intros Hm Hp Hq Hw Hids Ha Hb.
  transitivity (concat (member_points h <$> Relation.Members area)).
  { apply (relation_loop_points h (Relation.Members area) []). }
  rewrite Hm. simpl.
  unfold member_points. rewrite Hp, Hq, Hw, Hids. simpl.
  unfold node_point. rewrite Ha, Hb. reflexivity.
Qed.

(** C10. The ring returned by [wayToPolygon] has one point per entry of
    the path's reference list, in list order; an entry that names no
    known point stands as the zero point ([node_point]). *)
Theorem wayToPolygon_one_point_per_reference (h : Handler) (way : Way.t) :
  geo.Points (wayToPolygon h way) = node_point h <$> Way.NodeIDs way
  ∧ length (geo.Points (wayToPolygon h way)) = length (Way.NodeIDs way).
Proof.
  assert (geo.Points (wayToPolygon h way) = node_point h <$> Way.NodeIDs way) as E.
  { unfold wayToPolygon. cbn [geo.Points]. apply (way_loop_points h _ []). }
  split; [exact E|]. rewrite E. apply length_fmap.
Qed.

(** C6, as the code has it.  A reference of a path that names no known
    point is not left out: the ring holds the zero point at the position
    of that reference, and the ring is as long as the reference list. *)
Theorem wayToPolygon_unresolved_is_zero_point (h : Handler) (way : Way.t)
    (k : nat) (nodeID : Z) :
  Way.NodeIDs way !! k = Some nodeID →
  Nodes h !! nodeID = None →
  geo.Points (wayToPolygon h way) !! k
    = Some (geo.NewPoint float64_zero float64_zero)
  ∧ length (geo.Points (wayToPolygon h way)) = length (Way.NodeIDs way).
Proof.
  intros Hk Hnone.
  assert (geo.Points (wayToPolygon h way) = node_point h <$> Way.NodeIDs way) as E.
  { unfold wayToPolygon. cbn [geo.Points]. apply (way_loop_points h _ []). }
  rewrite E. split; [|apply length_fmap].
  rewrite list_lookup_fmap, Hk. simpl.
  unfold node_point. rewrite Hnone. reflexivity.
Qed.

End assembly_facts.

(** The ring of [[pointRef(P), pathRef(A, B)]] on the sample data. *)
Example relationToPolygon_sample :
  geo.Points (relationToPolygon sample_handler
                (Relation.mk 1 ∅ [ref 11; ref 102]))
  = [geo.NewPoint 50 50; geo.NewPoint 0 10; geo.NewPoint 10 10]%Z.
Proof. vm_compute. reflexivity. Qed.

Lemma wayToPolygon_unresolved_is_zero_point_witness :
  Way.NodeIDs broken_way !! 1 = Some 77%Z
  ∧ handler.Nodes sample_handler !! 77%Z = None
  ∧ geo.Points (wayToPolygon sample_handler broken_way) !! 1
      = Some (geo.NewPoint 0%Z 0%Z)
  ∧ length (geo.Points (wayToPolygon sample_handler broken_way)) = 3.
Proof.
  split; [reflexivity|]. split; [vm_compute; reflexivity|].
  apply (wayToPolygon_unresolved_is_zero_point sample_handler broken_way 1 77%Z).
  - reflexivity.
  - vm_compute. reflexivity.
Defined.

(** C6, as the specification words it, fails: on [broken_way] the
    assembly that skips the unknown reference gives two points, the code
    gives three. *)
Lemma wayToPolygon_skipping_counterexample :
  handler.Nodes sample_handler !! 77%Z = None
  ∧ geo.Points (wayToPolygon sample_handler broken_way)
    ≠ geo.Points (wayToPolygon_skipping sample_handler broken_way).
Proof.
  split; [vm_compute; reflexivity|].
  vm_compute. discriminate.
Qed.

(** * The hierarchy build: the loops and their closed forms *)

Section hierarchy_facts.
Context `{Float64} `{!PolygonContains} `{!Os}.
Import handler.

Lemma index_second_point (poly : geo.Polygon) :
  index (geo.Points poly) 1
  = match second_point poly with
    | Some point => Ok point
    | None => Fault (index_out_of_range 1 (length (geo.Points poly)))
    end.
Proof. reflexivity. Qed.

(** The loop over the districts completes exactly when every district
    ring has a second point, and then it has appended the districts whose
    second point the polygon contains, in group order. *)
Lemma district_loop_iff (h : Handler) (areaPolygon : geo.Polygon)
    (ds : list Way.t) (city city' : city.t) :
  range (district_body h areaPolygon) ds city = Ok city'
  ↔ Forall (fun dist => is_Some (second_point (wayToPolygon h dist))) ds
    ∧ city' = city.mk (city.name city) (city.placeType city) (city.geom city)
                (city.districts city
                 ++ (district_of h
                       <$> filter (fun dist =>
                                     inside areaPolygon (wayToPolygon h dist) = true)
                                  ds)).
Proof.
  revert city.
  induction ds as [|dist ds IH]; intros city; simpl.
  - rewrite app_nil_r. destruct city. simpl.
    split; [intros [= <-]; split; [constructor|reflexivity] | intros [_ ->]; reflexivity].
  - unfold district_body at 1. rewrite index_second_point.
    rewrite Forall_cons.
    destruct (second_point (wayToPolygon h dist)) as [point|] eqn:E; simpl.
    + destruct (Contains areaPolygon point) eqn:C.
      * rewrite IH. simpl.
        rewrite filter_cons_True by (unfold inside; rewrite E; exact C).
        rewrite fmap_cons, <- app_assoc. simpl.
        split; intros [HF ->]; (split; [|reflexivity]); [split; [eauto|exact HF] | apply HF].
      * rewrite IH.
        rewrite filter_cons_False by (unfold inside; rewrite E, C; discriminate).
        split; intros [HF ->]; (split; [|reflexivity]); [split; [eauto|exact HF] | apply HF].
    + split; [discriminate|]. intros [[[? ?] _] _]. discriminate.
Qed.

(** One settlement: the body of the loop over the settlements. *)
Lemma area_body_iff (h : Handler) (countryPolygon : geo.Polygon)
    (c c' : country.t) (area : Relation.t) :
  area_body h countryPolygon c area = Ok c'
  ↔ Forall (fun dist => is_Some (second_point (wayToPolygon h dist))) (Districts h)
    ∧ is_Some (second_point (relationToPolygon h area))
    ∧ c' = if inside countryPolygon (relationToPolygon h area)
           then country.mk (country.name c) (country.towns c ++ [city_of h area])
                           (country.geom c)
           else c.
Proof.
  unfold area_body.
  destruct (range _ (Districts h) _) as [city|f] eqn:R; cbn [mbind result_bind].
  - apply district_loop_iff in R as [HF ->].
    cbn [city.name city.placeType city.geom city.districts app].
    rewrite index_second_point. unfold inside.
    destruct (second_point (relationToPolygon h area)) as [point|];
      cbn [mbind result_bind].
    + fold (districts_inside h (relationToPolygon h area)).
      fold (city_of h area).
      destruct (Contains countryPolygon point).
      * split; [intros [= <-]; eauto | intros (_ & _ & ->); reflexivity].
      * split; [intros [= <-]; eauto | intros (_ & _ & ->); reflexivity].
    + split; [discriminate | intros (_ & [? ?] & _); discriminate].
  - split; [discriminate|]. intros (HF & _ & _).
    pose proof (proj2 (district_loop_iff h (relationToPolygon h area) (Districts h)
                         (city.mk (tag (Relation.Tags area) "name")
                                  (tag (Relation.Tags area) "place")
                                  (relationToPolygon h area) []) _)
                      (conj HF eq_refl)) as R'.
    rewrite R in R'. discriminate.
Qed.

(** The loop over the settlements: a completed loop has appended the
    settlements whose second point the polygon contains, in group order,
    each with its districts. *)
Lemma area_loop_inv (h : Handler) (countryPolygon : geo.Polygon)
    (areas : list Relation.t) (c c' : country.t) :
  range (area_body h countryPolygon) areas c = Ok c' →
  c' = country.mk (country.name c)
         (country.towns c
          ++ (city_of h
                <$> filter (fun area =>
                              inside countryPolygon (relationToPolygon h area) = true)
                           areas))
         (country.geom c).
Proof.
  revert c.
  induction areas as [|area areas IH]; intros c; simpl.
  - intros [= <-]. rewrite app_nil_r. destruct c; reflexivity.
  - destruct (area_body h countryPolygon c area) as [c1|f] eqn:B; [|discriminate].
    apply area_body_iff in B as (_ & _ & ->).
    intros R. apply IH in R as ->.
    destruct (inside countryPolygon (relationToPolygon h area)) eqn:I; simpl.
    + rewrite filter_cons_True by exact I.
      rewrite fmap_cons, <- app_assoc. reflexivity.
    + rewrite filter_cons_False by (rewrite I; discriminate). reflexivity.
Qed.

(** The loop over the settlements completes when every ring it indexes
    has a second point. *)
Lemma area_loop_total (h : Handler) (countryPolygon : geo.Polygon)
    (areas : list Relation.t) (c : country.t) :
  Forall (fun area => is_Some (second_point (relationToPolygon h area))) areas →
  Forall (fun dist => is_Some (second_point (wayToPolygon h dist))) (Districts h) →
  ∃ c', range (area_body h countryPolygon) areas c = Ok c'.
Proof.
  intros HA HD. revert c.
  induction HA as [|area areas Ha _ IH]; intros c; simpl.
  - eauto.
  - pose proof (proj2 (area_body_iff h countryPolygon c _ area)
                      (conj HD (conj Ha eq_refl))) as ->.
    apply IH.
Qed.

(** The file written at lines 116-123 is the debug file of the country
    built from the same relation. *)
Lemma debug_file_country_of (h : Handler) (cn : Relation.t) :
  {| path := tag (Relation.Tags cn) "name";
     writes := (fun point => Sprintf_debug (geo.Lng point) (geo.Lat point))
                 <$> geo.Points (relationToPolygon h cn) |}
  = debug_file (country_of h cn).
Proof. reflexivity. Qed.

Lemma selected_cons (cfg : config.Ariadna) (cn : Relation.t)
    (cns : list Relation.t) :
  selected cfg (cn :: cns)
  = if String.eqb (tag (Relation.Tags cn) "name") (config.ImportCountry cfg)
    then cn :: selected cfg cns
    else selected cfg cns.
Proof.
  unfold selected.
  destruct (String.eqb_spec (tag (Relation.Tags cn) "name")
                            (config.ImportCountry cfg)) as [E|E].
  - by rewrite filter_cons_True.
  - by rewrite filter_cons_False.
Qed.

(** The loop over the country relations, whatever its outcome.  The
    countries appended are those of a prefix [built] of the selected
    relations, in order; the files appended are the debug files of these
    countries, in order, then at most one more (that of a country whose
    build faulted after its file was written).  A completed loop has
    built every selected relation and written nothing more. *)
Lemma countries_loop_spec (cns : list Relation.t) (i i' : Importer)
    (fs fs' : list File) (o : option fault) :
  countries_loop cns i fs = (o, i', fs') →
  handler i' = handler i ∧ config i' = config i ∧ eg i' = eg i
  ∧ ∃ built rest extra,
      selected (config i) cns = built ++ rest
      ∧ countries i' = countries i ++ (country_of (handler i) <$> built)
      ∧ fs' = fs ++ (debug_file <$> (country_of (handler i) <$> built)) ++ extra
      ∧ length extra ≤ 1
      ∧ (o = None → rest = [] ∧ extra = []).
Proof.
  revert i fs.
  induction cns as [|cn cns IH]; intros i fs; simpl.
  - intros [= <- <- <-]. repeat split.
    exists [], [], []. simpl. rewrite !app_nil_r. repeat split; auto.
  - unfold country_body. rewrite selected_cons.
    destruct (String.eqb (tag (Relation.Tags cn) "name")
                         (config.ImportCountry (config i)));
      cbn [negb].
    2:{ apply IH. }
    destruct (os_Create_ok (tag (Relation.Tags cn) "name")); cbn [negb].
    2:{ intros [= <- <- <-]. repeat split.
        exists [], (cn :: selected (config i) cns), [].
        simpl. rewrite !app_nil_r. repeat split; auto; discriminate. }
    rewrite debug_file_country_of.
    destruct (range _ (Areas (handler i)) _) as [c|f] eqn:R.
    2:{ intros [= <- <- <-]. repeat split.
        exists [], (cn :: selected (config i) cns),
               [debug_file (country_of (handler i) cn)].
        simpl. rewrite !app_nil_r. repeat split; auto; discriminate. }
    apply area_loop_inv in R. cbn [country.name country.towns country.geom app] in R.
    fold (towns_inside (handler i) (relationToPolygon (handler i) cn)) in R.
    fold (country_of (handler i) cn) in R. subst c.
    intros L. apply IH in L as (Hh & Hc & He & built & rest & extra & Hs & Hn & Hf & Hx & Ho).
    cbn [handler config eg countries] in *.
    repeat (split; [assumption|]).
    exists (cn :: built), rest, extra.
    rewrite Hs, Hn, Hf, !fmap_cons, <- !app_assoc. simpl.
    repeat split; auto; apply Ho; assumption.
Qed.

(** The build runs to completion when every ring it indexes has a second
    point and the debug file of the configured country can be created. *)
Lemma countries_loop_total (cns : list Relation.t) (i : Importer) (fs : list File) :
  rings_indexable (handler i) →
  os_Create_ok (config.ImportCountry (config i)) = true →
  ∃ i' fs', countries_loop cns i fs = (None, i', fs').
Proof.
  intros [HA HD] HC. revert i fs HA HD HC.
  induction cns as [|cn cns IH]; intros i fs HA HD HC; simpl.
  - eauto.
  - unfold country_body.
    destruct (String.eqb_spec (tag (Relation.Tags cn) "name")
                              (config.ImportCountry (config i))) as [E|E];
      cbn [negb].
    2:{ apply IH; assumption. }
    rewrite E, HC. cbn [negb].
    destruct (area_loop_total (handler i) (relationToPolygon (handler i) cn)
                (Areas (handler i))
                (country.mk (config.ImportCountry (config i)) []
                            (relationToPolygon (handler i) cn)) HA HD) as [c ->].
    apply IH; assumption.
Qed.




(** Every settlement attached under a polygon carries the districts
    attached under its own polygon. *)
Lemma towns_inside_districts (h : Handler) (countryPolygon : geo.Polygon)
    (t : city.t) :
  t ∈ towns_inside h countryPolygon →
  city.districts t = districts_inside h (city.geom t).
Proof.
  unfold towns_inside. rewrite list_elem_of_fmap.
  intros (area & -> & _). reflexivity.
Qed.

End hierarchy_facts.

(** * The hierarchy build: what a run leaves behind *)

Section build_facts.
Context `{Float64} `{!PolygonContains} `{!Os}.
Import handler.


(** C4, as the code has it.  Under every settlement of every country the
    build has added, the districts are those of the district group whose
    second ring point the settlement's polygon contains, all of them and
    in group order: a district stands under each settlement that contains
    its second point, be it none, one or several. *)
Theorem districts_under_every_containing_settlement (i i' : Importer)
    (fs fs' : list File) (o : option fault) :
  areasToPolygons i fs = (o, i', fs') →
  ∃ new,
    countries i' = countries i ++ new
    ∧ ∀ c t, c ∈ new → t ∈ country.towns c →
        city.districts t
        = district_of (handler i)
            <$> filter (fun dist =>
                          inside (city.geom t) (wayToPolygon (handler i) dist) = true)
                       (Districts (handler i)).
Proof.
  intros L. apply countries_loop_spec in L
    as (_ & _ & _ & built & _ & _ & _ & Hn & _).
  eexists. split; [exact Hn|].
  intros c t Hc Ht. apply list_elem_of_fmap in Hc as (cn & -> & _).
  exact (towns_inside_districts _ _ _ Ht).
Qed.


(** C8, as the code has it.  The countries the build adds are built from
    relations of the country group whose name tag equals the configured
    name, one country per such relation and in group order, all of them
    when the build completes; every other relation is skipped.  There is
    at most one country when at most one relation carries the name. *)
Theorem countries_of_selected_relations (i i' : Importer) (fs fs' : list File)
    (o : option fault) :
  areasToPolygons i fs = (o, i', fs') →
  ∃ built rest,
    selected (config i) (Countries (handler i)) = built ++ rest
    ∧ countries i' = countries i ++ (country_of (handler i) <$> built)
    ∧ (o = None → rest = [])
    ∧ Forall (fun c => country.name c = config.ImportCountry (config i))
             (country_of (handler i) <$> built)
    ∧ (length (selected (config i) (Countries (handler i))) ≤ 1 →
       length (country_of (handler i) <$> built) ≤ 1).
Proof.
  intros L. apply countries_loop_spec in L
    as (_ & _ & _ & built & rest & extra & Hs & Hn & _ & _ & Ho).
  exists built, rest. repeat split; auto.
  - intros Hnone. by apply Ho.
  - apply Forall_fmap, Forall_forall. intros cn Hcn.
    assert (cn ∈ selected (config i) (Countries (handler i))) as Hsel
      by (rewrite Hs; apply elem_of_app; by left).
    apply list_elem_of_filter in Hsel as [Hname _]. exact Hname.
  - rewrite Hs, length_app, length_fmap. lia.
Qed.

(** The build completes when every ring it indexes has a second point and
    the debug file can be created; it then adds one country for every
    selected relation. *)
Lemma areasToPolygons_completes (i : Importer) (fs : list File) :
  rings_indexable (handler i) →
  os_Create_ok (config.ImportCountry (config i)) = true →
  ∃ i' fs',
    areasToPolygons i fs = (None, i', fs')
    ∧ countries i'
      = countries i
        ++ (country_of (handler i) <$> selected (config i) (Countries (handler i))).
Proof.
  intros HR HC.
  destruct (countries_loop_total (Countries (handler i)) i fs HR HC) as (i' & fs' & L).
  exists i', fs'. split; [exact L|].
  apply countries_loop_spec in L
    as (_ & _ & _ & built & rest & extra & Hs & Hn & _ & _ & Ho).
  destruct (Ho eq_refl) as [-> _]. rewrite app_nil_r in Hs. by rewrite Hs.
Qed.

(** A settlement ring without a second point stops the loop over the
    settlements. *)
Lemma area_body_short_ring (h : Handler) (countryPolygon : geo.Polygon)
    (c : country.t) (area : Relation.t) :
  second_point (relationToPolygon h area) = None →
  ∃ f, area_body h countryPolygon c area = Fault f.
Proof.
  intros Hnone.
  destruct (area_body h countryPolygon c area) as [c'|f] eqn:B; [|eauto].
  apply area_body_iff in B as (_ & [point Hp] & _). congruence.
Qed.




End build_facts.

(** * The sample runs *)

Lemma sample_run :
  areasToPolygons sample_importer [] = (None, sample_built, sample_files).
Proof. vm_compute. reflexivity. Defined.


(** On the sample both halves of C1 are met with both answers: Bishkek is
    attached and Far is not, Vostok stands under Bishkek and Remote does
    not. *)
Example sample_attachments :
  (fun c => (fun t => (city.name t, district.name <$> city.districts t))
              <$> country.towns c) <$> countries sample_built
  = [[("Bishkek", ["Vostok"]); ("Osh", ["Vostok"])]].
Proof. vm_compute. reflexivity. Qed.

Lemma districts_under_every_containing_settlement_witness :
  areasToPolygons sample_importer [] = (None, sample_built, sample_files)
  ∧ ∃ new,
      countries sample_built = countries sample_importer ++ new
      ∧ ∀ c t, c ∈ new → t ∈ country.towns c →
          city.districts t
          = district_of (handler sample_importer)
              <$> filter (fun dist =>
                            inside (city.geom t)
                                   (wayToPolygon (handler sample_importer) dist) = true)
                         (handler.Districts (handler sample_importer)).
Proof.
  split; [exact sample_run|].
  apply (districts_under_every_containing_settlement sample_importer sample_built
           [] sample_files None).
  vm_compute. reflexivity.
Defined.

(** C4, as the specification words it, fails: on the sample the build
    completes, the country has the two settlements Bishkek and Osh, and
    the district Vostok stands under both. *)
Lemma district_under_two_settlements_counterexample :
  areasToPolygons sample_importer [] = (None, sample_built, sample_files)
  ∧ ∃ c t1 t2,
      countries sample_built = [c]
      ∧ country.towns c !! 0 = Some t1
      ∧ country.towns c !! 1 = Some t2
      ∧ city.name t1 = "Bishkek"
      ∧ city.name t2 = "Osh"
      ∧ district_of (handler sample_importer) Vostok ∈ city.districts t1
      ∧ district_of (handler sample_importer) Vostok ∈ city.districts t2.
Proof.
  split; [exact sample_run|].
  exists (country_of (handler sample_importer) KG),
         (city_of (handler sample_importer) Bishkek),
         (city_of (handler sample_importer) Osh).
  repeat split; try (vm_compute; reflexivity);
    (apply list_elem_of_fmap; exists Vostok; split; [reflexivity|];
     apply list_elem_of_filter; split; [vm_compute; reflexivity|];
     apply list_elem_of_here).
Qed.


(** The debug file of the sample country: the four corners of the outer
    square, longitude first. *)
Example sample_debug_file :
  sample_files
  = [ {| path := "KG";
         writes := [ "0,0" +:+ newline; "10,0" +:+ newline;
                     "10,10" +:+ newline; "0,10" +:+ newline ] |} ].
Proof. vm_compute. reflexivity. Qed.

Lemma countries_of_selected_relations_witness :
  areasToPolygons sample_importer [] = (None, sample_built, sample_files)
  ∧ ∃ built rest,
      selected (config sample_importer) (handler.Countries (handler sample_importer))
        = built ++ rest
      ∧ countries sample_built
        = countries sample_importer
          ++ (country_of (handler sample_importer) <$> built)
      ∧ (@None fault = None → rest = [])
      ∧ Forall (fun c => country.name c
                         = config.ImportCountry (config sample_importer))
               (country_of (handler sample_importer) <$> built)
      ∧ (length (selected (config sample_importer)
                          (handler.Countries (handler sample_importer))) ≤ 1 →
         length (country_of (handler sample_importer) <$> built) ≤ 1).
Proof.
  split; [exact sample_run|].
  apply (countries_of_selected_relations sample_importer sample_built
           [] sample_files None).
  vm_compute. reflexivity.
Defined.

(** C8, as the specification words it, fails: with two relations of the
    country group named as configured the build completes and leaves two
    countries. *)
Lemma two_countries_counterexample :
  tag (Relation.Tags KG) "name" = config.ImportCountry (config twin_importer)
  ∧ tag (Relation.Tags KG_again) "name" = config.ImportCountry (config twin_importer)
  ∧ (areasToPolygons twin_importer []).1.1 = None
  ∧ country.name <$> countries (areasToPolygons twin_importer []).1.2
    = ["KG"; "KG"]
  ∧ ¬ length (countries (areasToPolygons twin_importer []).1.2) ≤ 1.
Proof.
  repeat split; try (vm_compute; reflexivity).
  vm_compute. lia.
Qed.

(** C3. A settlement relation without members has an empty ring; with it
    in the settlement group the build ends in an index fault at the
    containment test of line 142, after the debug file was written and
    before any country is added. *)
Theorem areasToPolygons_faults_on_empty_ring :
  geo.Points (relationToPolygon (handler hollow_importer) Empty) = []
  ∧ (areasToPolygons hollow_importer []).1.1 = Some (index_out_of_range 1 0)
  ∧ countries (areasToPolygons hollow_importer []).1.2 = []
  ∧ path <$> (areasToPolygons hollow_importer []).2 = ["KG"].
Proof. vm_compute. repeat split; reflexivity. Qed.

(** The same with a district path of a single point: the fault is at the
    containment test of line 137. *)
Example areasToPolygons_faults_on_single_point_district :
  geo.Points (wayToPolygon (handler lonely_importer) Lonely) = [geo.NewPoint 4 4]%Z
  ∧ (areasToPolygons lonely_importer []).1.1 = Some (index_out_of_range 1 1)
  ∧ countries (areasToPolygons lonely_importer []).1.2 = [].
Proof. vm_compute. repeat split; reflexivity. Qed.


(** The order of a group is part of the contents: with two settlements
    swapped in the settlement group the country's settlements come out in
    the other order. *)
Example areasToPolygons_follows_group_order :
  (fun c => city.name <$> country.towns c)
    <$> countries (areasToPolygons sample_importer []).1.2 = [["Bishkek"; "Osh"]]
  ∧ (fun c => city.name <$> country.towns c)
      <$> countries (areasToPolygons swapped_importer []).1.2 = [["Osh"; "Bishkek"]].
Proof. vm_compute. split; reflexivity. Qed.

(** * The join of the three push tasks *)

Section join_facts.
Context `{Float64} `{!PolygonContains} `{!Os}.

(** A [Start] that returns nil has started three calls in the group. *)
Lemma Start_group (i i1 : Importer) (fs fs1 : list File) :
  Start None None i fs = (Returned None, i1, fs1) →
  eg i1 = errgroup.Go (errgroup.Go (errgroup.Go (eg i))).
Proof.
  unfold Start.
  destruct (areasToPolygons i fs) as [[[f|] i'] fs'] eqn:L; [discriminate|].
  intros [= <- <-]. cbn [eg].
  apply countries_loop_spec in L as (_ & _ & -> & _). reflexivity.
Qed.

(** C2. After a [Start] that returned nil on a fresh group, [WaitStop]
    stays blocked until the third task has returned; the group then holds
    the first error a task reported, and [WaitStop] returns without it:
    its result is the same whether a task failed or not. *)
Theorem WaitStop_returns_no_error (i i1 : Importer) (fs fs1 : list File)
    (r1 r2 r3 : option errgroup.error) :
  eg i = errgroup.zero →
  Start None None i fs = (Returned None, i1, fs1) →
  WaitStop i1 = None
  ∧ WaitStop (task_returns i1 r1) = None
  ∧ WaitStop (task_returns (task_returns i1 r1) r2) = None
  ∧ errgroup.Wait
      (eg (task_returns (task_returns (task_returns i1 r1) r2) r3))
    = Some (first_error r1 r2 r3)
  ∧ WaitStop (task_returns (task_returns (task_returns i1 r1) r2) r3)
    = Some tt.
Proof.
  intros Hz Hs. apply Start_group in Hs. rewrite Hz in Hs.
  unfold WaitStop, task_returns. cbn [eg]. rewrite Hs.
  destruct r1, r2, r3; repeat split; reflexivity.
Qed.

End join_facts.

(** One task fails, two succeed: the group has the error, the caller of
    [WaitStop] has nothing. *)
Lemma WaitStop_returns_no_error_witness :
  eg sample_importer = errgroup.zero
  ∧ Start None None sample_importer [] = (Returned None, sample_started, sample_files)
  ∧ WaitStop sample_started = None
  ∧ WaitStop (task_returns sample_started (Some "bulk push failed")) = None
  ∧ WaitStop (task_returns (task_returns sample_started (Some "bulk push failed"))
                           None) = None
  ∧ errgroup.Wait
      (eg (task_returns
             (task_returns (task_returns sample_started (Some "bulk push failed"))
                           None)
             None))
    = Some (first_error (Some "bulk push failed") None None)
  ∧ WaitStop (task_returns
                (task_returns (task_returns sample_started (Some "bulk push failed"))
                              None)
                None)
    = Some tt.
Proof.
  split; [reflexivity|]. split; [vm_compute; reflexivity|].
  apply (WaitStop_returns_no_error sample_importer sample_started [] sample_files
           (Some "bulk push failed") None None).
  - reflexivity.
  - vm_compute. reflexivity.
Defined.

(** * uniqString *)

Lemma uniqueSet_loop_lookup (list : list string) (m : gmap string bool) (x : string) :
  fold_left (fun uniqueSet x => <[x := true]> uniqueSet) list m !! x
  = if decide (x ∈ list) then Some true else m !! x.
Proof.
  revert m.
  induction list as [|y list IH]; intros m; cbn [fold_left].
  - case_decide as Hin; [by apply elem_of_nil in Hin | reflexivity].
  - rewrite IH, lookup_insert.
    destruct (decide (x ∈ list)) as [Hin|Hout].
    + rewrite decide_True by (apply list_elem_of_further, Hin). reflexivity.
    + destruct (decide (y = x)) as [->|Hne].
      * rewrite decide_True by apply list_elem_of_here. reflexivity.
      * rewrite decide_False; [reflexivity|].
        intros [Heq|Hin]%elem_of_cons; [apply Hne; symmetry; exact Heq | exact (Hout Hin)].
Qed.

Lemma uniqueSet_keys (list : list string) (x : string) :
  x ∈ (map_to_list (uniqueSet list)).*1 ↔ x ∈ list.
Proof.
  rewrite list_elem_of_fmap. split.
  - intros ([k v] & -> & Hkv). apply elem_of_map_to_list in Hkv.
    unfold uniqueSet in Hkv. rewrite uniqueSet_loop_lookup in Hkv. simpl in *.
    destruct (decide (k ∈ list)); [assumption|]. by rewrite lookup_empty in Hkv.
  - intros Hin. exists (x, true). split; [reflexivity|].
    apply elem_of_map_to_list. unfold uniqueSet.
    rewrite uniqueSet_loop_lookup. by rewrite decide_True.
Qed.

Lemma append_loop (order acc : list string) :
  fold_left (fun result x => result ++ [x]) order acc = acc ++ order.
Proof.
  revert acc. induction order as [|x order IH]; intros acc; simpl.
  - by rewrite app_nil_r.
  - by rewrite IH, <- app_assoc.
Qed.

(** Every result is the list without its repetitions, in some order. *)
Lemma uniqString_remove_dups (list result : list string) :
  uniqString list result → result ≡ₚ remove_dups list.
Proof.
  intros (order & Hord & ->). rewrite (append_loop order []). simpl.
  unfold range_keys in Hord. rewrite Hord.
  apply NoDup_Permutation.
  - apply NoDup_fst_map_to_list.
  - apply NoDup_remove_dups.
  - intros x. by rewrite uniqueSet_keys, elem_of_remove_dups.
Qed.

(** The function returns: there is a result for every list. *)
Lemma uniqString_returns (list : list string) : ∃ result, uniqString list result.
Proof.
  exists (map_to_list (uniqueSet list)).*1, (map_to_list (uniqueSet list)).*1.
  split; [unfold range_keys; reflexivity|]. by rewrite (append_loop _ []).
Qed.

(** X1. Every result of [uniqString] holds each string of the list and
    nothing else, whatever the order the map was walked in. *)
Theorem uniqString_same_elements (list result : list string) (x : string) :
  uniqString list result → (x ∈ result ↔ x ∈ list).
Proof.
  intros Hu. rewrite (uniqString_remove_dups _ _ Hu). apply elem_of_remove_dups.
Qed.

(** X2. No result of [uniqString] holds a string twice. *)
Theorem uniqString_NoDup (list result : list string) :
  uniqString list result → NoDup result.
Proof.
  intros Hu. rewrite (uniqString_remove_dups _ _ Hu). apply NoDup_remove_dups.
Qed.

Lemma remove_dups_length_le (l : list string) :
  length (remove_dups l) ≤ length l.
Proof.
  induction l as [|x l IH]; simpl; [lia|].
  destruct (decide_rel elem_of x l); simpl; lia.
Qed.

Lemma remove_dups_length_eq (l : list string) :
  length (remove_dups l) = length l ↔ NoDup l.
Proof.
  split.
  - induction l as [|x l IH]; simpl; [constructor|].
    pose proof (remove_dups_length_le l).
    destruct (decide_rel elem_of x l); simpl; [lia|].
    intros [= Hl]. constructor; auto.
  - intros Hnd. induction Hnd as [|x l Hx _ IH]; simpl; [reflexivity|].
    destruct (decide_rel elem_of x l); [contradiction|]. simpl. by rewrite IH.
Qed.

(** X3. A result of [uniqString] is never longer than the list, and it is
    as long as the list exactly when the list has no repetition; it is
    then the list itself in some order. *)
Theorem uniqString_length (list result : list string) :
  uniqString list result →
  length result ≤ length list
  ∧ (length result = length list ↔ NoDup list)
  ∧ (NoDup list → result ≡ₚ list).
Proof.
  intros Hu. pose proof (uniqString_remove_dups _ _ Hu) as Hp.
  rewrite Hp. split; [apply remove_dups_length_le|].
  split; [apply remove_dups_length_eq|].
  intros Hnd. apply NoDup_Permutation; auto using NoDup_remove_dups.
  intros x. apply elem_of_remove_dups.
Qed.

(** X4. Two lists with the same strings, in whatever order and with
    whatever repetitions, have the same results up to order; so a result
    is changed by a second pass in its order at most. *)
Theorem uniqString_depends_on_elements (list1 list2 result1 result2 : list string) :
  (∀ x, x ∈ list1 ↔ x ∈ list2) →
  uniqString list1 result1 →
  uniqString list2 result2 →
  result1 ≡ₚ result2
  ∧ ∀ again, uniqString result1 again → again ≡ₚ result1.
Proof.
  intros Hsame Hu1 Hu2.
  pose proof (uniqString_remove_dups _ _ Hu1) as Hp1.
  pose proof (uniqString_remove_dups _ _ Hu2) as Hp2.
  split.
  - rewrite Hp1, Hp2.
    apply NoDup_Permutation; auto using NoDup_remove_dups.
    intros x. rewrite !elem_of_remove_dups. apply Hsame.
  - intros again Hu. pose proof (uniqString_remove_dups _ _ Hu) as Hp.
    rewrite Hp.
    apply NoDup_Permutation; auto using NoDup_remove_dups.
    + rewrite Hp1. apply NoDup_remove_dups.
    + intros x. apply elem_of_remove_dups.
Qed.

Lemma sample_uniq_result : uniqString sample_names sample_uniq.
Proof.
  exists sample_uniq. split; [|reflexivity].
  unfold range_keys. vm_compute. apply perm_swap || reflexivity.
Defined.

Lemma uniqString_same_elements_witness :
  uniqString sample_names sample_uniq
  ∧ ("KG" ∈ sample_uniq ↔ "KG" ∈ sample_names).
Proof.
  split; [exact sample_uniq_result|].
  apply (uniqString_same_elements sample_names sample_uniq "KG").
  exact sample_uniq_result.
Defined.

Lemma uniqString_NoDup_witness :
  uniqString sample_names sample_uniq ∧ NoDup sample_uniq.
Proof.
  split; [exact sample_uniq_result|].
  apply (uniqString_NoDup sample_names sample_uniq). exact sample_uniq_result.
Defined.

Lemma uniqString_length_witness :
  uniqString sample_names sample_uniq
  ∧ length sample_uniq ≤ length sample_names
  ∧ (length sample_uniq = length sample_names ↔ NoDup sample_names)
  ∧ (NoDup sample_names → sample_uniq ≡ₚ sample_names).
Proof.
  split; [exact sample_uniq_result|].
  apply (uniqString_length sample_names sample_uniq). exact sample_uniq_result.
Defined.

Lemma uniqString_depends_on_elements_witness :
  (∀ x, x ∈ sample_names ↔ x ∈ sample_uniq)
  ∧ uniqString sample_names sample_uniq
  ∧ uniqString sample_uniq sample_uniq
  ∧ sample_uniq ≡ₚ sample_uniq
  ∧ ∀ again, uniqString sample_uniq again → again ≡ₚ sample_uniq.
Proof.
  assert (∀ x, x ∈ sample_names ↔ x ∈ sample_uniq) as Hsame.
  { intros x. unfold sample_names, sample_uniq.
    rewrite !elem_of_cons, !elem_of_nil. tauto. }
  assert (uniqString sample_uniq sample_uniq) as Hu.
  { exists sample_uniq. split; [|reflexivity].
    unfold range_keys. vm_compute. apply perm_swap || reflexivity. }
  split; [exact Hsame|]. split; [exact sample_uniq_result|]. split; [exact Hu|].
  apply (uniqString_depends_on_elements sample_names sample_uniq sample_uniq sample_uniq).
  - exact Hsame.
  - exact sample_uniq_result.
  - exact Hu.
Defined.

(** * Polygon assembly: how the two assemblies compose *)

Section assembly_more.
Context `{Float64}.
Import handler.

Lemma relation_ring (h : Handler) (area : Relation.t) :
  geo.Points (relationToPolygon h area)
  = concat (member_points h <$> Relation.Members area).
Proof.
  unfold relationToPolygon. cbn [geo.Points].
  apply (relation_loop_points h (Relation.Members area) []).
Qed.

Lemma way_ring (h : Handler) (way : Way.t) :
  geo.Points (wayToPolygon h way) = node_point h <$> Way.NodeIDs way.
Proof.
  unfold wayToPolygon. cbn [geo.Points]. apply (way_loop_points h _ []).
Qed.

Lemma polygon_eq (p q : geo.Polygon) : geo.Points p = geo.Points q → p = q.
Proof. destruct p, q. simpl. by intros ->. Qed.

(** X5. [relationToPolygon] looks at nothing but the identifiers of the
    members: two relations whose members carry the same identifiers in the
    same order have the same polygon, whatever the types and roles of the
    members and the tags and identifiers of the relations. *)
Theorem relationToPolygon_member_ids_only (h : Handler) (a1 a2 : Relation.t) :
  RelationMember.ID <$> Relation.Members a1
  = RelationMember.ID <$> Relation.Members a2 →
  relationToPolygon h a1 = relationToPolygon h a2.
Proof.
  intros Hids. apply polygon_eq. rewrite !relation_ring.
  assert (∀ ms : list RelationMember.t,
            member_points h <$> ms
            = (fun id => member_points h (RelationMember.mk id
                                            RelationMember.WayType EmptyString))
                <$> (RelationMember.ID <$> ms)) as E.
  { intros ms. rewrite <- list_fmap_compose. apply list_fmap_ext.
    intros _ m _. reflexivity. }
  by rewrite (E (Relation.Members a1)), (E (Relation.Members a2)), Hids.
Qed.

(** X6. The ring of a relation whose members are two lists one after the
    other is the ring of the first list followed by the ring of the
    second. *)
Theorem relationToPolygon_members_app (h : Handler) (area : Relation.t)
    (ms1 ms2 : list RelationMember.t) :
  Relation.Members area = ms1 ++ ms2 →
  geo.Points (relationToPolygon h area)
  = geo.Points (relationToPolygon h
                  (Relation.mk (Relation.ID area) (Relation.Tags area) ms1))
    ++ geo.Points (relationToPolygon h
                     (Relation.mk (Relation.ID area) (Relation.Tags area) ms2)).
Proof.
  intros Hm. rewrite !relation_ring, Hm. cbn [Relation.Members].
  by rewrite fmap_app, concat_app.
Qed.

(** X7. A relation whose only member names a known path, and no point,
    has the polygon [wayToPolygon] gives for that path. *)
Theorem relationToPolygon_single_path (h : Handler) (area : Relation.t)
    (member : RelationMember.t) (way : Way.t) :
  Relation.Members area = [member] →
  Nodes h !! RelationMember.ID member = None →
  FullWays h !! RelationMember.ID member = Some way →
  relationToPolygon h area = wayToPolygon h way.
Proof.
  intros Hm Hn Hw. apply polygon_eq. rewrite relation_ring, way_ring, Hm.
  simpl. unfold member_points. rewrite Hn, Hw. apply app_nil_r.
Qed.

Lemma omap_length_le {A B} (f : A → option B) (l : list A) :
  length (omap f l) ≤ length l.
Proof.
  induction l as [|x l IH]; csimpl; [lia|].
  destruct (f x); csimpl; lia.
Qed.

(** X8. The ring of [wayToPolygon] is made of points of the accumulator
    only, the one the assembly that skips unknown references gives,
    exactly when every reference of the path is a known point; otherwise
    it is longer. *)
Theorem wayToPolygon_resolved_iff (h : Handler) (way : Way.t) :
  (wayToPolygon h way = wayToPolygon_skipping h way
   ↔ Forall (fun nodeID => is_Some (Nodes h !! nodeID)) (Way.NodeIDs way))
  ∧ length (geo.Points (wayToPolygon_skipping h way))
    ≤ length (geo.Points (wayToPolygon h way)).
Proof.
  split.
  - split.
    + intros E. apply (f_equal geo.Points) in E. rewrite way_ring in E.
      unfold wayToPolygon_skipping in E. cbn [geo.Points] in E.
      induction (Way.NodeIDs way) as [|id ids IH]; [constructor|].
      csimpl in E. unfold node_point at 1 in E.
      destruct (Nodes h !! id) as [node|] eqn:N; csimpl in E.
      * injection E as E. constructor; [eauto|]. by apply IH.
      * apply (f_equal length) in E. cbn [length] in E. rewrite ?length_fmap in E.
        pose proof (omap_length_le
          (fun nodeID => (fun node => geo.NewPoint (Node.Lat node) (Node.Lon node))
                           <$> Nodes h !! nodeID) ids). lia.
    + intros HF. apply polygon_eq. rewrite way_ring.
      unfold wayToPolygon_skipping. cbn [geo.Points].
      induction HF as [|id ids [node N] _ IH]; [reflexivity|].
      csimpl. unfold node_point at 1. rewrite N. csimpl. f_equal. exact IH.
  - rewrite way_ring, length_fmap. unfold wayToPolygon_skipping. cbn [geo.Points].
    apply omap_length_le.
Qed.

(** X9. A relation none of whose members is a known point or a known path
    has the empty ring; no member is an error. *)
Theorem relationToPolygon_unknown_members (h : Handler) (area : Relation.t) :
  Forall (fun member => Nodes h !! RelationMember.ID member = None
                        ∧ FullWays h !! RelationMember.ID member = None)
         (Relation.Members area) →
  geo.Points (relationToPolygon h area) = [].
Proof.
  intros HF. rewrite relation_ring.
  induction HF as [|m ms [Hn Hw] _ IH]; [reflexivity|].
  simpl. unfold member_points at 1. by rewrite Hn, Hw.
Qed.

End assembly_more.

Lemma relationToPolygon_member_ids_only_witness :
  RelationMember.ID <$> Relation.Members Osh
  = RelationMember.ID <$> Relation.Members Osh_retyped
  ∧ relationToPolygon sample_handler Osh = relationToPolygon sample_handler Osh_retyped.
Proof.
  split; [reflexivity|].
  apply (relationToPolygon_member_ids_only sample_handler Osh Osh_retyped).
  reflexivity.
Defined.

Lemma relationToPolygon_members_app_witness :
  Relation.Members Osh = [ref 5; ref 6] ++ [ref 7; ref 8]
  ∧ geo.Points (relationToPolygon sample_handler Osh)
    = geo.Points (relationToPolygon sample_handler
                    (Relation.mk (Relation.ID Osh) (Relation.Tags Osh) [ref 5; ref 6]))
      ++ geo.Points (relationToPolygon sample_handler
                       (Relation.mk (Relation.ID Osh) (Relation.Tags Osh) [ref 7; ref 8])).
Proof.
  split; [reflexivity|].
  apply (relationToPolygon_members_app sample_handler Osh [ref 5; ref 6] [ref 7; ref 8]).
  reflexivity.
Defined.

Lemma relationToPolygon_single_path_witness :
  Relation.Members ring_of_100 = [ref 100]
  ∧ handler.Nodes sample_handler !! RelationMember.ID (ref 100) = None
  ∧ handler.FullWays sample_handler !! RelationMember.ID (ref 100)
    = Some (Way.mk 100 ∅ [1; 2; 3; 4]%Z)
  ∧ relationToPolygon sample_handler ring_of_100
    = wayToPolygon sample_handler (Way.mk 100 ∅ [1; 2; 3; 4]%Z).
Proof.
  split; [reflexivity|]. split; [vm_compute; reflexivity|].
  split; [vm_compute; reflexivity|].
  apply (relationToPolygon_single_path sample_handler ring_of_100 (ref 100)
           (Way.mk 100 ∅ [1; 2; 3; 4]%Z)).
  - reflexivity.
  - vm_compute. reflexivity.
  - vm_compute. reflexivity.
Defined.

Lemma relationToPolygon_unknown_members_witness :
  Forall (fun member =>
            handler.Nodes sample_handler !! RelationMember.ID member = None
            ∧ handler.FullWays sample_handler !! RelationMember.ID member = None)
         (Relation.Members Unknown)
  ∧ geo.Points (relationToPolygon sample_handler Unknown) = [].
Proof.
  assert (Forall (fun member =>
            handler.Nodes sample_handler !! RelationMember.ID member = None
            ∧ handler.FullWays sample_handler !! RelationMember.ID member = None)
         (Relation.Members Unknown)) as HF.
  { repeat constructor; vm_compute; reflexivity. }
  split; [exact HF|].
  apply (relationToPolygon_unknown_members sample_handler Unknown). exact HF.
Defined.

(** * The hierarchy build: when it completes and when it faults *)

Section build_more.
Context `{Float64} `{!PolygonContains} `{!Os}.
Import handler.

Lemma index_fault {A} (s : list A) (f : fault) :
  index s 1 = Fault f → ∃ n, f = index_out_of_range 1 n ∧ n < 2.
Proof.
  unfold index. destruct (s !! 1) eqn:E; [discriminate|].
  intros [= <-]. apply lookup_ge_None in E. eauto with lia.
Qed.

Lemma district_loop_fault (h : Handler) (areaPolygon : geo.Polygon)
    (ds : list Way.t) (city : city.t) (f : fault) :
  range (district_body h areaPolygon) ds city = Fault f →
  ∃ n, f = index_out_of_range 1 n ∧ n < 2.
Proof.
  revert city. induction ds as [|dist ds IH]; intros city; simpl; [discriminate|].
  destruct (district_body h areaPolygon city dist) as [city1|f1] eqn:B.
  - apply IH.
  - intros [= <-]. unfold district_body in B.
    destruct (index (geo.Points (wayToPolygon h dist)) 1) as [point|f2] eqn:I;
      cbn [mbind result_bind] in B.
    + destruct (Contains areaPolygon point); discriminate.
    + injection B as <-. by apply index_fault in I.
Qed.

Lemma area_loop_fault (h : Handler) (countryPolygon : geo.Polygon)
    (areas : list Relation.t) (c : country.t) (f : fault) :
  range (area_body h countryPolygon) areas c = Fault f →
  ∃ n, f = index_out_of_range 1 n ∧ n < 2.
Proof.
  revert c. induction areas as [|area areas IH]; intros c; simpl; [discriminate|].
  destruct (area_body h countryPolygon c area) as [c1|f1] eqn:B.
  - apply IH.
  - intros [= <-]. unfold area_body in B.
    destruct (range _ (Districts h) _) as [city|f2] eqn:R;
      cbn [mbind result_bind] in B.
    + destruct (index (geo.Points (relationToPolygon h area)) 1) as [point|f3] eqn:I;
        cbn [mbind result_bind] in B.
      * destruct (Contains countryPolygon point); discriminate.
      * injection B as <-. by apply index_fault in I.
    + injection B as <-. by apply district_loop_fault in R.
Qed.

(** The loop over the settlements of one country completes exactly when
    the rings it indexes have a second point. *)
Lemma area_loop_ok_iff (h : Handler) (countryPolygon : geo.Polygon)
    (areas : list Relation.t) (c : country.t) :
  (∃ c', range (area_body h countryPolygon) areas c = Ok c')
  ↔ Forall (fun area => is_Some (second_point (relationToPolygon h area))) areas
    ∧ (areas = []
       ∨ Forall (fun dist => is_Some (second_point (wayToPolygon h dist)))
                (Districts h)).
Proof.
  split.
  - revert c. induction areas as [|area areas IH]; intros c [c' R].
    + split; [constructor | by left].
    + simpl in R.
      destruct (area_body h countryPolygon c area) as [c1|f] eqn:B; [|discriminate].
      apply area_body_iff in B as (HD & Ha & _).
      destruct (IH c1 (ex_intro _ c' R)) as [HA _].
      split; [by constructor | by right].
  - intros [HA [->|HD]]; [simpl; eauto|].
    by apply area_loop_total.
Qed.

(** The relations that are not selected are passed over. *)
Lemma countries_loop_selected (cns : list Relation.t) (i : Importer)
    (fs : list File) :
  countries_loop cns i fs = countries_loop (selected (config i) cns) i fs.
Proof.
  revert i fs. induction cns as [|cn cns IH]; intros i fs; [reflexivity|].
  rewrite selected_cons. cbn [countries_loop]. unfold country_body.
  destruct (String.eqb _ _) eqn:E; cbn [negb]; [|apply IH].
  cbn [countries_loop]. unfold country_body. rewrite E. cbn [negb].
  destruct (negb (os_Create_ok _)); [reflexivity|].
  destruct (range _ _ _) as [c|f]; [|reflexivity].
  apply (IH {| handler := handler i; config := config i; eg := eg i;
               countries := countries i ++ [c] |}).
Qed.

(** The loop over relations that are all selected, when the file can be
    created and the rings can be indexed: every relation gives its
    country and its file. *)
Lemma countries_loop_safe (sel : list Relation.t) (i : Importer) (fs : list File) :
  Forall (fun cn => tag (Relation.Tags cn) "name" = config.ImportCountry (config i))
         sel →
  os_Create_ok (config.ImportCountry (config i)) = true →
  build_safe (handler i) →
  countries_loop sel i fs
  = (None,
     {| handler := handler i; config := config i; eg := eg i;
        countries := countries i ++ (country_of (handler i) <$> sel) |},
     fs ++ (debug_file <$> (country_of (handler i) <$> sel))).
Proof.
  intros HS HC HB. revert i fs HS HC HB.
  induction sel as [|cn sel IH]; intros i fs HS HC HB.
  - simpl. rewrite !app_nil_r. by destruct i.
  - apply Forall_cons in HS as [Hcn HS].
    cbn [countries_loop]. unfold country_body.
    rewrite Hcn, String.eqb_refl, HC. cbn [negb].
    destruct (proj2 (area_loop_ok_iff (handler i) (relationToPolygon (handler i) cn)
                       (Areas (handler i))
                       (country.mk (config.ImportCountry (config i)) []
                                   (relationToPolygon (handler i) cn))) HB)
      as [c R].
    rewrite R. apply area_loop_inv in R.
    cbn [country.name country.towns country.geom app] in R.
    fold (towns_inside (handler i) (relationToPolygon (handler i) cn)) in R.
    rewrite <- Hcn in R. fold (country_of (handler i) cn) in R. subst c.
    rewrite <- Hcn at 1. rewrite debug_file_country_of.
    rewrite (IH {| handler := handler i; config := config i; eg := eg i;
                   countries := countries i ++ [country_of (handler i) cn] |});
      cbn [handler config eg countries]; try assumption.
    by rewrite !fmap_cons, <- !app_assoc.
Qed.

(** The first selected relation, when the file can be created and some
    ring cannot be indexed: an index fault, after the file and before the
    country. *)
Lemma countries_loop_unsafe (cn : Relation.t) (sel : list Relation.t)
    (i : Importer) (fs : list File) :
  tag (Relation.Tags cn) "name" = config.ImportCountry (config i) →
  os_Create_ok (config.ImportCountry (config i)) = true →
  ¬ build_safe (handler i) →
  ∃ n, n < 2
       ∧ countries_loop (cn :: sel) i fs
         = (Some (index_out_of_range 1 n), i,
            fs ++ [debug_file (country_of (handler i) cn)]).
Proof.
  intros Hcn HC HB. cbn [countries_loop]. unfold country_body.
  rewrite Hcn, String.eqb_refl, HC. cbn [negb].
  destruct (range _ (Areas (handler i)) _) as [c|f] eqn:R.
  - exfalso. apply HB.
    exact (proj1 (area_loop_ok_iff _ _ _ _) (ex_intro _ c R)).
  - apply area_loop_fault in R as (n & -> & Hn). exists n. split; [exact Hn|].
    by rewrite <- (debug_file_country_of (handler i) cn), Hcn.
Qed.

Lemma selected_all (cfg : config.Ariadna) (cns : list Relation.t) :
  Forall (fun cn => tag (Relation.Tags cn) "name" = config.ImportCountry cfg)
         (selected cfg cns).
Proof.
  apply Forall_forall. intros cn Hin. by apply list_elem_of_filter in Hin as [? _].
Qed.

Lemma build_safe_dec (h : Handler) : build_safe h ∨ ¬ build_safe h.
Proof.
  unfold build_safe.
  destruct (decide (Forall (fun area => is_Some (second_point (relationToPolygon h area)))
                           (Areas h))) as [HA|HA]; [|right; tauto].
  destruct (Areas h) as [|area areas] eqn:E; [left; auto|].
  destruct (decide (Forall (fun dist => is_Some (second_point (wayToPolygon h dist)))
                           (Districts h))) as [HD|HD]; [left; auto|].
  right. intros [_ [?|?]]; [discriminate|contradiction].
Qed.

(** The four ways a build can go. *)
Lemma areasToPolygons_cases (i : Importer) (fs : list File) :
  (selected (config i) (Countries (handler i)) = []
   ∧ areasToPolygons i fs = (None, i, fs))
  ∨ (selected (config i) (Countries (handler i)) ≠ []
     ∧ os_Create_ok (config.ImportCountry (config i)) = false
     ∧ areasToPolygons i fs
       = (Some (log_Fatal (config.ImportCountry (config i))), i, fs))
  ∨ (selected (config i) (Countries (handler i)) ≠ []
     ∧ os_Create_ok (config.ImportCountry (config i)) = true
     ∧ build_safe (handler i)
     ∧ areasToPolygons i fs
       = (None,
          {| handler := handler i; config := config i; eg := eg i;
             countries :=
               countries i
               ++ (country_of (handler i)
                     <$> selected (config i) (Countries (handler i))) |},
          fs ++ (debug_file
                   <$> (country_of (handler i)
                          <$> selected (config i) (Countries (handler i))))))
  ∨ (∃ cn sel n,
       selected (config i) (Countries (handler i)) = cn :: sel
       ∧ os_Create_ok (config.ImportCountry (config i)) = true
       ∧ ¬ build_safe (handler i)
       ∧ n < 2
       ∧ areasToPolygons i fs
         = (Some (index_out_of_range 1 n), i,
            fs ++ [debug_file (country_of (handler i) cn)])).
Proof.
  unfold areasToPolygons. rewrite countries_loop_selected.
  pose proof (selected_all (config i) (Countries (handler i))) as HA.
  destruct (selected (config i) (Countries (handler i))) as [|cn sel] eqn:E.
  - left. auto.
  - right. destruct (os_Create_ok (config.ImportCountry (config i))) eqn:HC.
    + right. destruct (build_safe_dec (handler i)) as [HB|HB].
      * left. rewrite (countries_loop_safe _ i fs HA HC HB). auto.
      * right. apply Forall_cons in HA as [Hcn _].
        destruct (countries_loop_unsafe cn sel i fs Hcn HC HB) as (n & Hn & ->).
        exists cn, sel, n. auto.
    + left. apply Forall_cons in HA as [Hcn _].
      cbn [countries_loop]. unfold country_body.
      rewrite Hcn, String.eqb_refl, HC. auto.
Qed.

(** X10. When no relation of the country group carries the configured
    name the build does nothing: it completes, adds no country and writes
    no file, whatever the rings of the settlements and districts are and
    whether or not a file could be created. *)
Theorem areasToPolygons_nothing_selected (i : Importer) (fs : list File) :
  selected (config i) (Countries (handler i)) = [] →
  areasToPolygons i fs = (None, i, fs).
Proof.
  intros Hs. unfold areasToPolygons. rewrite countries_loop_selected, Hs. reflexivity.
Qed.

(** X11. When a relation carries the configured name and the debug file
    cannot be created, the build ends in [log.Fatal] at the first such
    relation: it has added no country and written no file. *)
Theorem areasToPolygons_create_fails (i : Importer) (fs : list File) :
  selected (config i) (Countries (handler i)) ≠ [] →
  os_Create_ok (config.ImportCountry (config i)) = false →
  areasToPolygons i fs
  = (Some (log_Fatal (config.ImportCountry (config i))), i, fs).
Proof.
  intros Hs HC. unfold areasToPolygons. rewrite countries_loop_selected.
  pose proof (selected_all (config i) (Countries (handler i))) as HA.
  destruct (selected (config i) (Countries (handler i))) as [|cn sel]; [done|].
  apply Forall_cons in HA as [Hcn _].
  cbn [countries_loop]. unfold country_body.
  by rewrite Hcn, String.eqb_refl, HC.
Qed.

(** X12. The build completes if and only if no relation carries the
    configured name, or the debug file can be created and every
    settlement ring has a second point and, when there is a settlement at
    all, every district ring has one. *)
Theorem areasToPolygons_completes_iff (i : Importer) (fs : list File) :
  (areasToPolygons i fs).1.1 = None
  ↔ selected (config i) (Countries (handler i)) = []
    ∨ (os_Create_ok (config.ImportCountry (config i)) = true
       ∧ build_safe (handler i)).
Proof.
  destruct (areasToPolygons_cases i fs)
    as [(Hs & ->)|[(Hs & HC & ->)|[(Hs & HC & HB & ->)|(cn & sel & n & Hs & HC & HB & _ & ->)]]];
    simpl.
  - tauto.
  - split; [discriminate|]. intros [?|[? _]]; [contradiction|congruence].
  - tauto.
  - split; [discriminate|]. intros [?|[_ ?]]; [congruence|contradiction].
Qed.

(** X13. The build is all or nothing.  Either it completes, and has added
    the country of every selected relation and written the file of each;
    or it faults at the first selected relation, and has added no country
    at all: on [log.Fatal] no file is written, on an index fault (always
    at index 1 of a ring of fewer than 2 points) one file is, that of the
    first selected relation. *)
Theorem areasToPolygons_all_or_nothing (i i' : Importer) (fs fs' : list File)
    (o : option fault) :
  areasToPolygons i fs = (o, i', fs') →
  (o = None
   ∧ countries i'
     = countries i
       ++ (country_of (handler i) <$> selected (config i) (Countries (handler i)))
   ∧ fs' = fs ++ (debug_file
                    <$> (country_of (handler i)
                           <$> selected (config i) (Countries (handler i)))))
  ∨ (i' = i
     ∧ ((o = Some (log_Fatal (config.ImportCountry (config i))) ∧ fs' = fs)
        ∨ ∃ n cn,
            o = Some (index_out_of_range 1 n) ∧ n < 2
            ∧ head (selected (config i) (Countries (handler i))) = Some cn
            ∧ fs' = fs ++ [debug_file (country_of (handler i) cn)])).
Proof.
  destruct (areasToPolygons_cases i fs)
    as [(Hs & ->)|[(Hs & HC & ->)|[(Hs & HC & HB & ->)|(cn & sel & n & Hs & HC & HB & Hn & ->)]]];
    intros [= <- <- <-].
  - left. rewrite Hs. simpl. by rewrite !app_nil_r.
  - right. auto.
  - left. auto.
  - right. split; [reflexivity|]. right. exists n, cn. rewrite Hs. auto.
Qed.

(** X14. With a relation of the configured name and a file system that
    lets the debug file be created, one settlement ring of fewer than two
    points, or (once there is a settlement) one district ring of fewer
    than two points, makes the build end in an index fault with no country
    added. *)
Theorem areasToPolygons_short_ring_faults (i : Importer) (fs : list File) :
  selected (config i) (Countries (handler i)) ≠ [] →
  os_Create_ok (config.ImportCountry (config i)) = true →
  (∃ area, area ∈ Areas (handler i)
           ∧ length (geo.Points (relationToPolygon (handler i) area)) < 2)
  ∨ (Areas (handler i) ≠ []
     ∧ ∃ dist, dist ∈ Districts (handler i)
               ∧ length (geo.Points (wayToPolygon (handler i) dist)) < 2) →
  ∃ n fs', n < 2
           ∧ areasToPolygons i fs = (Some (index_out_of_range 1 n), i, fs').
Proof.
  intros Hs HC Hshort.
  assert (¬ build_safe (handler i)) as HB.
  { intros [HA HD]. destruct Hshort as [(area & Hin & Hlen)|(Hne & dist & Hin & Hlen)].
    - rewrite Forall_forall in HA. destruct (HA area Hin) as [point Hp].
      apply lookup_lt_Some in Hp. lia.
    - destruct HD as [?|HD]; [contradiction|].
      rewrite Forall_forall in HD. destruct (HD dist Hin) as [point Hp].
      apply lookup_lt_Some in Hp. lia. }
  unfold areasToPolygons. rewrite countries_loop_selected.
  pose proof (selected_all (config i) (Countries (handler i))) as HA.
  destruct (selected (config i) (Countries (handler i))) as [|cn sel]; [done|].
  apply Forall_cons in HA as [Hcn _].
  destruct (countries_loop_unsafe cn sel i fs Hcn HC HB) as (n & Hn & ->).
  eauto.
Qed.


(** X16. The build is not idempotent.  After a build that completed, a
    second build on the importer it left completes too and appends the
    same countries and writes the same files once more. *)
Theorem areasToPolygons_twice (i i1 : Importer) (fs fs1 : list File) :
  areasToPolygons i fs = (None, i1, fs1) →
  ∃ i2 fs2 new,
    areasToPolygons i1 fs1 = (None, i2, fs2)
    ∧ countries i1 = countries i ++ new
    ∧ countries i2 = countries i ++ new ++ new
    ∧ fs2 = fs ++ (debug_file <$> new) ++ (debug_file <$> new).
Proof.
  destruct (areasToPolygons_cases i fs)
    as [(Hs & L)|[(Hs & HC & ->)|[(Hs & HC & HB & ->)|(cn & sel & n & Hs & HC & HB & _ & ->)]]];
    [|discriminate| |discriminate].
  - rewrite L. intros [= <- <-]. exists i, fs, []. rewrite L. simpl.
    by rewrite !app_nil_r.
  - intros [= <- <-].
    set (new := country_of (handler i)
                  <$> selected (config i) (Countries (handler i))).
    destruct (areasToPolygons_cases
                {| handler := handler i; config := config i; eg := eg i;
                   countries := countries i ++ new |}
                (fs ++ (debug_file <$> new)))
      as [(Hs' & _)|[(_ & HC' & _)|[(_ & _ & _ & L2)|(? & ? & ? & _ & _ & HB' & _)]]];
      cbn [handler config eg countries] in *.
    + contradiction.
    + congruence.
    + rewrite L2. fold new. eexists _, _, new.
      split; [reflexivity|]. cbn [countries].
      by rewrite <- !app_assoc.
    + contradiction.
Qed.

(** X17. In every country the build has added, the settlements are
    settlements of the group, each with the name tag, the place tag and
    the ring of its relation, in group order and none twice as often as
    in the group; and so are the districts under every settlement. *)
Theorem hierarchy_follows_groups (i i' : Importer) (fs fs' : list File)
    (o : option fault) :
  areasToPolygons i fs = (o, i', fs') →
  ∃ new,
    countries i' = countries i ++ new
    ∧ ∀ c, c ∈ new →
        (fun t => (city.name t, city.placeType t, city.geom t)) <$> country.towns c
          `sublist_of`
        ((fun area => (tag (Relation.Tags area) "name",
                       tag (Relation.Tags area) "place",
                       relationToPolygon (handler i) area)) <$> Areas (handler i))
        ∧ ∀ t, t ∈ country.towns c →
            (fun d => (district.name d, district.geom d)) <$> city.districts t
              `sublist_of`
            ((fun dist => (tag (Way.Tags dist) "name", wayToPolygon (handler i) dist))
               <$> Districts (handler i)).
Proof.
  intros L. apply countries_loop_spec in L
    as (_ & _ & _ & built & _ & _ & _ & Hn & _).
  eexists. split; [exact Hn|].
  intros c Hc. apply list_elem_of_fmap in Hc as (cn & -> & _).
  cbn [country_of country.towns]. split.
  - unfold towns_inside. rewrite <- list_fmap_compose.
    apply fmap_sublist, sublist_filter.
  - intros t Ht. rewrite (towns_inside_districts _ _ _ Ht).
    unfold districts_inside. rewrite <- list_fmap_compose.
    apply fmap_sublist, sublist_filter.
Qed.

End build_more.

Lemma areasToPolygons_nothing_selected_witness :
  selected (config foreign_importer) (handler.Countries (handler foreign_importer)) = []
  ∧ areasToPolygons foreign_importer [] = (None, foreign_importer, []).
Proof.
  split; [vm_compute; reflexivity|].
  apply (areasToPolygons_nothing_selected foreign_importer []).
  vm_compute. reflexivity.
Defined.

Lemma areasToPolygons_create_fails_witness :
  selected (config sample_importer) (handler.Countries (handler sample_importer)) ≠ []
  ∧ no_path (config.ImportCountry (config sample_importer)) = false
  ∧ @areasToPolygons Z_float64 even_odd no_path sample_importer []
    = (Some (log_Fatal (config.ImportCountry (config sample_importer))),
       sample_importer, []).
Proof.
  assert (selected (config sample_importer)
                   (handler.Countries (handler sample_importer)) ≠ []) as Hs
    by (vm_compute; discriminate).
  split; [exact Hs|]. split; [reflexivity|].
  apply (@areasToPolygons_create_fails Z_float64 even_odd no_path sample_importer []).
  - exact Hs.
  - reflexivity.
Defined.

Lemma areasToPolygons_all_or_nothing_witness :
  areasToPolygons sample_importer [] = (None, sample_built, sample_files)
  ∧ ((@None fault = None
      ∧ countries sample_built
        = countries sample_importer
          ++ (country_of (handler sample_importer)
                <$> selected (config sample_importer)
                             (handler.Countries (handler sample_importer)))
      ∧ sample_files
        = [] ++ (debug_file
                   <$> (country_of (handler sample_importer)
                          <$> selected (config sample_importer)
                                       (handler.Countries (handler sample_importer)))))
     ∨ (sample_built = sample_importer
        ∧ ((None = Some (log_Fatal (config.ImportCountry (config sample_importer)))
            ∧ sample_files = [])
           ∨ ∃ n cn,
               None = Some (index_out_of_range 1 n) ∧ n < 2
               ∧ head (selected (config sample_importer)
                                (handler.Countries (handler sample_importer)))
                 = Some cn
               ∧ sample_files
                 = [] ++ [debug_file (country_of (handler sample_importer) cn)]))).
Proof.
  split; [exact sample_run|].
  apply (areasToPolygons_all_or_nothing sample_importer sample_built
           [] sample_files None).
  exact sample_run.
Defined.

(** On a settlement group that holds a relation of unknown members, the
    build faults. *)
Lemma areasToPolygons_short_ring_faults_witness :
  selected (config unknown_importer) (handler.Countries (handler unknown_importer)) ≠ []
  ∧ every_path (config.ImportCountry (config unknown_importer)) = true
  ∧ ((∃ area, area ∈ handler.Areas (handler unknown_importer)
              ∧ length (geo.Points (relationToPolygon (handler unknown_importer) area)) < 2)
     ∨ (handler.Areas (handler unknown_importer) ≠ []
        ∧ ∃ dist, dist ∈ handler.Districts (handler unknown_importer)
                  ∧ length (geo.Points (wayToPolygon (handler unknown_importer) dist)) < 2))
  ∧ ∃ n fs', n < 2
             ∧ areasToPolygons unknown_importer []
               = (Some (index_out_of_range 1 n), unknown_importer, fs').
Proof.
  assert (selected (config unknown_importer)
                   (handler.Countries (handler unknown_importer)) ≠ []) as Hs
    by (vm_compute; discriminate).
  assert ((∃ area, area ∈ handler.Areas (handler unknown_importer)
              ∧ length (geo.Points (relationToPolygon (handler unknown_importer) area)) < 2)
     ∨ (handler.Areas (handler unknown_importer) ≠ []
        ∧ ∃ dist, dist ∈ handler.Districts (handler unknown_importer)
                  ∧ length (geo.Points (wayToPolygon (handler unknown_importer) dist)) < 2))
    as Hshort.
  { left. exists Unknown. split.
    - apply list_elem_of_further, list_elem_of_here.
    - vm_compute. lia. }
  split; [exact Hs|]. split; [reflexivity|]. split; [exact Hshort|].
  apply (areasToPolygons_short_ring_faults unknown_importer []).
  - exact Hs.
  - reflexivity.
  - exact Hshort.
Defined.


Lemma areasToPolygons_twice_witness :
  areasToPolygons sample_importer [] = (None, sample_built, sample_files)
  ∧ ∃ i2 fs2 new,
      areasToPolygons sample_built sample_files = (None, i2, fs2)
      ∧ countries sample_built = countries sample_importer ++ new
      ∧ countries i2 = countries sample_importer ++ new ++ new
      ∧ fs2 = [] ++ (debug_file <$> new) ++ (debug_file <$> new).
Proof.
  split; [exact sample_run|].
  apply (areasToPolygons_twice sample_importer sample_built [] sample_files).
  exact sample_run.
Defined.

(** The second build on the sample: two countries of the same name, two
    files on the same path. *)
Example sample_built_twice :
  country.name <$> countries sample_rebuilt = ["KG"; "KG"]
  ∧ path <$> sample_refiled = ["KG"; "KG"].
Proof. vm_compute. split; reflexivity. Qed.

Lemma hierarchy_follows_groups_witness :
  areasToPolygons sample_importer [] = (None, sample_built, sample_files)
  ∧ ∃ new,
      countries sample_built = countries sample_importer ++ new
      ∧ ∀ c, c ∈ new →
          (fun t => (city.name t, city.placeType t, city.geom t)) <$> country.towns c
            `sublist_of`
          ((fun area => (tag (Relation.Tags area) "name",
                         tag (Relation.Tags area) "place",
                         relationToPolygon (handler sample_importer) area))
             <$> handler.Areas (handler sample_importer))
          ∧ ∀ t, t ∈ country.towns c →
              (fun d => (district.name d, district.geom d)) <$> city.districts t
                `sublist_of`
              ((fun dist => (tag (Way.Tags dist) "name",
                             wayToPolygon (handler sample_importer) dist))
                 <$> handler.Districts (handler sample_importer)).
Proof.
  split; [exact sample_run|].
  apply (hierarchy_follows_groups sample_importer sample_built [] sample_files None).
  exact sample_run.
Defined.

(** * Start and WaitStop: errors before the tasks *)

Section start_more.
Context `{Float64} `{!PolygonContains} `{!Os}.
Import handler.

(** X18. [Start] returns an error only when [parse] or [updateIndices]
    did, that error and the first of the two; it has then done nothing:
    the importer is as it was, no file is written, no task is started.  A
    failure of the build or of a push task is never returned by [Start]. *)
Theorem Start_error_is_setup_error (parse updateIndices : option errgroup.error)
    (i i' : Importer) (fs fs' : list File) (e : errgroup.error) :
  Start parse updateIndices i fs = (Returned (Some e), i', fs') →
  (parse = Some e ∨ (parse = None ∧ updateIndices = Some e))
  ∧ i' = i ∧ fs' = fs.
Proof.
  unfold Start. destruct parse as [e1|].
  { intros [= <- <- <-]. auto. }
  destruct updateIndices as [e2|].
  { intros [= <- <- <-]. auto. }
  destruct (areasToPolygons i fs) as [[[f|] i1] fs1]; discriminate.
Qed.

(** X19. [Start] returns nil exactly when [parse] and [updateIndices]
    succeeded and the build completed; it has then started three tasks in
    the group and left the first-error slot alone.  In every other case
    the group is as it was: no task is started. *)
Theorem Start_starts_three_tasks_or_none (parse updateIndices : option errgroup.error)
    (i i' : Importer) (fs fs' : list File) (x : exit) :
  Start parse updateIndices i fs = (x, i', fs') →
  (x = Returned None
   ↔ parse = None ∧ updateIndices = None ∧ (areasToPolygons i fs).1.1 = None)
  ∧ (x = Returned None →
     errgroup.running (eg i') = 3 + errgroup.running (eg i)
     ∧ errgroup.err (eg i') = errgroup.err (eg i))
  ∧ (x ≠ Returned None → eg i' = eg i).
Proof.
  unfold Start. destruct parse as [e1|].
  { intros [= <- <- <-]. repeat split; try discriminate; intuition discriminate. }
  destruct updateIndices as [e2|].
  { intros [= <- <- <-]. repeat split; try discriminate; intuition discriminate. }
  destruct (areasToPolygons i fs) as [[[f|] i1] fs1] eqn:L;
    apply countries_loop_spec in L as (_ & _ & He & _);
    intros [= <- <- <-]; cbn [eg]; rewrite He; simpl.
  - repeat split; try discriminate; intuition discriminate.
  - repeat split; auto. intros Hx. by destruct Hx.
Qed.

(** X20. When [Start] dies, it dies in the build, after [parse] and
    [updateIndices] succeeded: the hierarchy is as it was, no task is
    started, and at most one debug file was written. *)
Theorem Start_dies_in_the_build (parse updateIndices : option errgroup.error)
    (i i' : Importer) (fs fs' : list File) (f : fault) :
  Start parse updateIndices i fs = (Died f, i', fs') →
  parse = None ∧ updateIndices = None
  ∧ areasToPolygons i fs = (Some f, i', fs')
  ∧ i' = i
  ∧ ((f = log_Fatal (config.ImportCountry (config i)) ∧ fs' = fs)
     ∨ ∃ n file, f = index_out_of_range 1 n ∧ n < 2 ∧ fs' = fs ++ [file]).
Proof.
  unfold Start. destruct parse as [e1|]; [discriminate|].
  destruct updateIndices as [e2|]; [discriminate|].
  destruct (areasToPolygons_cases i fs)
    as [(_ & ->)|[(_ & _ & ->)|[(_ & _ & _ & ->)|(cn & sel & n & _ & _ & _ & Hn & ->)]]];
    try discriminate; intros [= <- <- <-]; repeat split; eauto.
  right. eauto.
Qed.

(** X21. On a group in which nothing was started, [WaitStop] returns at
    once, and it still does after a [Start] that did not return nil. *)
Theorem WaitStop_without_tasks (parse updateIndices : option errgroup.error)
    (i i' : Importer) (fs fs' : list File) (x : exit) :
  errgroup.running (eg i) = 0 →
  Start parse updateIndices i fs = (x, i', fs') →
  x ≠ Returned None →
  WaitStop i = Some tt ∧ WaitStop i' = Some tt.
Proof.
  intros Hz Hs Hx.
  assert (eg i' = eg i) as He.
  { revert Hs. unfold Start. destruct parse as [e1|].
    { by intros [= <- <- <-]. }
    destruct updateIndices as [e2|].
    { by intros [= <- <- <-]. }
    destruct (areasToPolygons i fs) as [[[f|] i1] fs1] eqn:L;
      apply countries_loop_spec in L as (_ & _ & He & _);
      intros [= <- <- <-]; [exact He | by destruct Hx]. }
  unfold WaitStop, errgroup.Wait. rewrite He, Hz. simpl. auto.
Qed.

End start_more.

Lemma Start_error_is_setup_error_witness :
  Start None (Some "index: no such host") hollow_importer []
  = (Returned (Some "index: no such host"), hollow_importer, [])
  ∧ (@None errgroup.error = Some "index: no such host"
     ∨ (@None errgroup.error = None
        ∧ Some "index: no such host" = Some "index: no such host"))
  ∧ hollow_importer = hollow_importer ∧ @nil File = [].
Proof.
  split; [reflexivity|].
  apply (Start_error_is_setup_error None (Some "index: no such host")
           hollow_importer hollow_importer [] [] "index: no such host").
  reflexivity.
Defined.

Lemma Start_starts_three_tasks_or_none_witness :
  Start None None sample_importer [] = (Returned None, sample_started, sample_files)
  ∧ (Returned None = Returned None
     ↔ @None errgroup.error = None ∧ @None errgroup.error = None
       ∧ (areasToPolygons sample_importer []).1.1 = None)
  ∧ (Returned None = Returned None →
     errgroup.running (eg sample_started) = 3 + errgroup.running (eg sample_importer)
     ∧ errgroup.err (eg sample_started) = errgroup.err (eg sample_importer))
  ∧ (Returned None ≠ Returned None → eg sample_started = eg sample_importer).
Proof.
  assert (Start None None sample_importer []
          = (Returned None, sample_started, sample_files)) as Hs
    by (vm_compute; reflexivity).
  split; [exact Hs|].
  apply (Start_starts_three_tasks_or_none None None sample_importer sample_started
           [] sample_files (Returned None)).
  exact Hs.
Defined.

Lemma Start_dies_in_the_build_witness :
  Start None None hollow_importer []
  = (Died (index_out_of_range 1 0), hollow_importer, hollow_files)
  ∧ @None errgroup.error = None ∧ @None errgroup.error = None
  ∧ areasToPolygons hollow_importer []
    = (Some (index_out_of_range 1 0), hollow_importer, hollow_files)
  ∧ hollow_importer = hollow_importer
  ∧ ((index_out_of_range 1 0
      = log_Fatal (config.ImportCountry (config hollow_importer))
      ∧ hollow_files = [])
     ∨ ∃ n file, index_out_of_range 1 0 = index_out_of_range 1 n ∧ n < 2
                 ∧ hollow_files = [] ++ [file]).
Proof.
  assert (Start None None hollow_importer []
          = (Died (index_out_of_range 1 0), hollow_importer, hollow_files)) as Hs
    by (vm_compute; reflexivity).
  split; [exact Hs|].
  apply (Start_dies_in_the_build None None hollow_importer hollow_importer
           [] hollow_files (index_out_of_range 1 0)).
  exact Hs.
Defined.

Lemma WaitStop_without_tasks_witness :
  errgroup.running (eg hollow_importer) = 0
  ∧ Start (Some "parse: unexpected EOF") None hollow_importer []
    = (Returned (Some "parse: unexpected EOF"), hollow_importer, [])
  ∧ Returned (Some "parse: unexpected EOF") ≠ Returned None
  ∧ WaitStop hollow_importer = Some tt ∧ WaitStop hollow_importer = Some tt.
Proof.
  split; [reflexivity|]. split; [reflexivity|]. split; [discriminate|].
  apply (WaitStop_without_tasks (Some "parse: unexpected EOF") None
           hollow_importer hollow_importer [] []
           (Returned (Some "parse: unexpected EOF"))).
  - reflexivity.
  - reflexivity.
  - discriminate.
Defined.
